(** * The WolframAlpha fallback skill: question parser, answer extraction,
      response cleaning and the fallback handler of [src/__init__.py]. *)

From Stdlib Require Import String Ascii List ZArith Bool Lia.
From stdpp Require Import gmap strings.
Import ListNotations.

Local Open Scope list_scope.

#[local] Arguments String.append : simpl nomatch.

(** * Part I: the program *)

(** ** Python strings

    A Python 2 [str] is modelled by [string]; [+:+] is concatenation. *)

Module Str.

(** The line feed, ['\n']. *)
Definition LF : ascii := ascii_of_nat 10.

(** What is left of [s] after its first [n] characters, [s[n:]]. *)
Fixpoint drop (n : nat) (s : string) : string :=
  match n, s with
  | S k, String _ s' => drop k s'
  | _, _ => s
  end.

(** The slice [s[:n]]: the first [n] characters, all of [s] when it is
    shorter. *)
Definition slice_to (n : nat) (s : string) : string := substring 0 n s.

(** [sub in s] on strings: [sub] occurs in [s] as a contiguous run. *)
Fixpoint contains (sub s : string) : bool :=
  if String.prefix sub s then true
  else match s with
       | "" => false
       | String _ s' => contains sub s'
       end.

(** [s.replace(old, new)] for a non-empty [old]: the occurrences of
    [old] are replaced from left to right, without overlap.  [skip]
    counts the characters of an occurrence still to be passed over. *)
Fixpoint replace_from (old new s : string) (skip : nat) : string :=
  match s with
  | "" => ""
  | String c s' =>
      match skip with
      | S k => replace_from old new s' k
      | 0 =>
          match old with
          | String _ old' =>
              if String.prefix old s
              then new +:+ replace_from old new s' (String.length old')
              else String c (replace_from old new s' 0)
          | "" => String c (replace_from old new s' 0)
          end
      end
  end.

Definition replace (old new s : string) : string := replace_from old new s 0.

(** Every character of [s] satisfies [p]. *)
Fixpoint all (p : ascii -> bool) (s : string) : bool :=
  match s with
  | "" => true
  | String c s' => p c && all p s'
  end.

End Str.

(** A Python value that is [None] or a string. *)
Abbreviation value := (option string).

(** Its truth value: [None] and [''] are false. *)
Definition truthy (v : value) : bool :=
  match v with
  | Some (String _ _) => true
  | _ => false
  end.

(** [str(v)], as [%s] formats it. *)
Definition pystr (v : value) : string := default "None" v.

(** A dict with string keys; [d.get(k)] is [None] for a missing key. *)
Abbreviation dict := (gmap string value).

Definition get (d : dict) (k : string) : value := default None (d !! k).

(** The truth value of [None] or a dict: [None] and the empty dict are
    false. *)
Definition truthy_dict (v : option dict) : bool :=
  match v with
  | Some d => negb (bool_decide (d = ∅))
  | None => false
  end.

(** ** Exceptions and results

    The exceptions this module meets all derive from [Exception];
    [HTTPError] carries [e.response.status_code]. *)

Inductive exn :=
| HTTPError (status_code : Z)
| TypeError
| KeyError (key : string)
| NameError (name : string)
| OtherError (what : string).

Inductive result (A : Type) :=
| Ok (a : A)
| Raise (e : exn).
Arguments Ok {A} a.
Arguments Raise {A} e.

(** ** Regular expressions

    The fragment of [re] the module's patterns are written in: literal
    text, the greedy repetitions [k*] and [k+] of a character class,
    concatenation, alternation and named groups. *)

Inductive charclass :=
| Dot     (* .  : any character but the line feed *)
| Word    (* \w : [a-zA-Z0-9_] *)
| Space.  (* \s : [ \t\n\r\f\v] *)

Definition in_class (k : charclass) (c : ascii) : bool :=
  let n := nat_of_ascii c in
  match k with
  | Dot => negb (n =? 10)
  | Word => ((48 <=? n) && (n <=? 57)) || ((65 <=? n) && (n <=? 90))
            || ((97 <=? n) && (n <=? 122)) || (n =? 95)
  | Space => ((9 <=? n) && (n <=? 13)) || (n =? 32)
  end.

Inductive regex :=
| Lit (s : string)
| Star (k : charclass)
| Plus (k : charclass)
| Seq (r1 r2 : regex)
| Alt (r1 r2 : regex)
| Group (name : string) (r : regex).

Declare Scope regex_scope.
Delimit Scope regex_scope with re.
Bind Scope regex_scope with regex.
Infix "··" := Seq (at level 41, right associativity) : regex_scope.

(** [(?P<name>w|w1|...)] without the group: the words in their order. *)
Fixpoint any_of (w : string) (ws : list string) : regex :=
  match ws with
  | [] => Lit w
  | w' :: ws' => Alt (Lit w) (any_of w' ws')
  end.

(** A way of matching at the start of a string: the text matched, the
    rest of the string, and the named groups with their text. *)
Abbreviation matching := (string * string * list (string * string))%type.

(** The ways [k*] matches at the start of [s], the longest first. *)
Fixpoint star (k : charclass) (s : string) : list (string * string) :=
  match s with
  | "" => [("", "")]
  | String c s' =>
      if in_class k c
      then map (fun mr => (String c (fst mr), snd mr)) (star k s') ++ [("", s)]
      else [("", s)]
  end.

Definition plus (k : charclass) (s : string) : list (string * string) :=
  match s with
  | "" => []
  | String c s' =>
      if in_class k c
      then map (fun mr => (String c (fst mr), snd mr)) (star k s')
      else []
  end.

(** All the ways [r] matches at the start of [s], in the order in which
    the backtracking matcher of [re] tries them: the first pattern of a
    concatenation varies slowest, the left alternative comes first, a
    repetition takes as much as it can first. *)
Fixpoint run (r : regex) (s : string) : list matching :=
  match r with
  | Lit l =>
      if String.prefix l s then [(l, Str.drop (String.length l) s, [])] else []
  | Star k => map (fun mr => (fst mr, snd mr, [])) (star k s)
  | Plus k => map (fun mr => (fst mr, snd mr, [])) (plus k s)
  | Seq r1 r2 =>
      flat_map (fun x : matching =>
                  let '(m1, s1, g1) := x in
                  map (fun y : matching =>
                         let '(m2, s2, g2) := y in (m1 +:+ m2, s2, g1 ++ g2))
                      (run r2 s1))
               (run r1 s)
  | Alt r1 r2 => run r1 s ++ run r2 s
  | Group name r =>
      map (fun x : matching =>
             let '(m, s', g) := x in (m, s', (name, m) :: g))
          (run r s)
  end.

(** [pattern.match(s)]: the first way of matching at the start of [s]. *)
Definition re_match (pattern : regex) (s : string) : option matching :=
  head (run pattern s).

(** [match.groupdict()]. *)
Definition groupdict (m : matching) : dict :=
  list_to_map (map (fun ng => (fst ng, Some (snd ng))) (snd m)).

(** [re.sub(pattern, repl, s)] for a pattern that matches no empty text
    and a replacement without escapes: the matches are replaced from left
    to right, without overlap.  [skip] counts the characters of a match
    still to be passed over. *)
Fixpoint sub_from (pattern : regex) (repl s : string) (skip : nat) : string :=
  match s with
  | "" => ""
  | String c s' =>
      match skip with
      | S k => sub_from pattern repl s' k
      | 0 =>
          match re_match pattern s with
          | Some (String _ m', _, _) =>
              repl +:+ sub_from pattern repl s' (String.length m')
          | _ => String c (sub_from pattern repl s' 0)
          end
      end
  end.

Definition re_sub (pattern : regex) (repl s : string) : string :=
  sub_from pattern repl s 0.

(** ** EnglishQuestionParser *)

Module EnglishQuestionParser.

(** The first pattern, spelled with blanks between its parts and [_]
    for its literal spaces:
    [.* (?P<QuestionWord> who|what|when|where|why|which|whose ) _]
    [(?P<Query1> .* ) _ (?P<QuestionVerb> is|are|was|were ) _ (?P<Query2> .* )] *)
Definition regex1 : regex :=
  (Star Dot ··
   Group "QuestionWord"
     (any_of "who" ["what"; "when"; "where"; "why"; "which"; "whose"]) ··
   Lit " " ·· Group "Query1" (Star Dot) ·· Lit " " ··
   Group "QuestionVerb" (any_of "is" ["are"; "was"; "were"]) ··
   Lit " " ·· Group "Query2" (Star Dot))%re.

(** The second pattern, spelled in the same way:
    [.* (?P<QuestionWord> who|what|when|where|why|which|how ) _]
    [(?P<QuestionVerb> \w+ ) _ (?P<Query> .* )] *)
Definition regex2 : regex :=
  (Star Dot ··
   Group "QuestionWord"
     (any_of "who" ["what"; "when"; "where"; "why"; "which"; "how"]) ··
   Lit " " ·· Group "QuestionVerb" (Plus Word) ··
   Lit " " ·· Group "Query" (Star Dot))%re.

Definition regexes : list regex := [regex1; regex2].

(** [_normalize].  In ['Query1' and 'Query2' in groupdict] the left
    operand is a non-empty string, which is true: the test is
    ['Query2' in groupdict].  [' '.join] raises [TypeError] on [None].
    With neither key the function falls off its end and returns [None]. *)
Definition _normalize (groupdict : dict) : result (option dict) :=
  if bool_decide (is_Some (groupdict !! "Query")) then Ok (Some groupdict)
  else if bool_decide (is_Some (groupdict !! "Query2")) then
    match get groupdict "Query1", get groupdict "Query2" with
    | Some query1, Some query2 =>
        Ok (Some (<["QuestionWord" := get groupdict "QuestionWord"]>
                 (<["QuestionVerb" := get groupdict "QuestionVerb"]>
                 (<["Query" := Some (query1 +:+ " " +:+ query2)]> ∅))))
    | _, _ => Raise TypeError
    end
  else Ok None.

(** The loop of [parse] over a list of patterns. *)
Fixpoint parse_with (regexes : list regex) (utterance : string)
    : result (option dict) :=
  match regexes with
  | [] => Ok None
  | regex :: regexes' =>
      match re_match regex utterance with
      | Some m => _normalize (groupdict m)
      | None => parse_with regexes' utterance
      end
  end.

Definition parse (utterance : string) : result (option dict) :=
  parse_with regexes utterance.

End EnglishQuestionParser.

(** ** The knowledge API's response

    A pod carries the attributes the skill reads: [pod.id], [pod.text]
    ([None] when the pod has no plain text) and
    [pod.node.attrib['position']].  [res.results] is the sequence of
    primary pods, [res.pods] the collection of all pods. *)

Record Pod := mkPod {
  id : string;
  text : value;
  position : string
}.

Record Response := mkResponse {
  results : list Pod;
  pods : list Pod
}.

(** ** The host

    What the skill framework hands to the skill: the message of a
    fallback request, the settings and the configuration, the text
    normaliser, the API client, the language's list pattern and the
    dialog renderer.  The skill's calls into the host are recorded as
    events. *)

Record Message := mkMessage {
  utterance : string;   (* message.data.get('utterance') *)
  lang : value          (* message.data.get('lang') *)
}.

(** The coordinate of a location, [location['coordinate']], with [str]
    already applied to the latitude and the longitude. *)
Record Coordinate := mkCoordinate {
  latitude : string;
  longitude : string
}.

Abbreviation params := (list (string * string)).

Record Host := mkHost {
  (* mycroft.util.parse.normalize(utt, lang, remove_articles=False) *)
  normalize : string -> string -> string;
  (* self.settings *)
  settings : gmap string string;
  (* self.config_core.get('date_format'), ...get('system_unit') *)
  date_format : value;
  system_unit : value;
  (* self.config_core.get('location'): None when the configuration has no
     location, Some None for a location without the key 'coordinate' *)
  location : option (option Coordinate);
  (* self.client.query(input, params) *)
  client_query : string -> params -> result Response;
  (* reading regex/<self.lang>/list.rx, compiling its first line and
     matching it at the start of a text: the group Definition of the
     match, None when the pattern does not match; it raises when the file
     cannot be opened, when the line does not compile and when a match
     has no group Definition *)
  list_regex : string -> result (option string);
  (* self.dialog_renderer.render(template, data) *)
  render : string -> dict -> string
}.

Inductive event :=
| LogDebug (msg : string)
| LogException (e : exn)
| MouthThink
| Query (input : string) (ps : params)
| Emit (msg_type : string)
| Speak (utterance : string)
| SpeakDialog (key : string)
| SendEmail (subject body : string).

(** ** The skill's state and its actions *)

Record Skill := mkSkill {
  last_query : value;
  last_answer : value
}.

(** An action runs on the skill's state; it returns or raises, leaves a
    state and the events it caused, oldest first. *)
Definition M (A : Type) : Type := Skill -> result A * Skill * list event.

(** What running an action gave: its outcome, the state it left and the
    events it caused. *)
Definition outcome {A} (x : result A * Skill * list event) : result A := fst (fst x).
Definition state_after {A} (x : result A * Skill * list event) : Skill := snd (fst x).
Definition events {A} (x : result A * Skill * list event) : list event := snd x.

#[export] Instance M_ret : MRet M := fun A a self => (Ok a, self, []).

#[export] Instance M_bind : MBind M := fun A B f m self =>
  match m self with
  | (Ok a, self', evs) =>
      let '(r, self'', evs') := f a self' in (r, self'', evs ++ evs')
  | (Raise e, self', evs) => (Raise e, self', evs)
  end.

#[export] Instance result_ret : MRet result := fun A a => Ok a.

#[export] Instance result_bind : MBind result := fun A B f r =>
  match r with
  | Ok a => f a
  | Raise e => Raise e
  end.

Definition raise {A} (e : exn) : M A := fun self => (Raise e, self, []).

Definition lift {A} (r : result A) : M A := fun self => (r, self, []).

Definition tell (ev : event) : M unit := fun self => (Ok tt, self, [ev]).

(** [try: m], with what [m] raised handed to the [except] clauses. *)
Definition trying {A} (m : M A) : M (result A) := fun self =>
  let '(r, self', evs) := m self in (Ok r, self', evs).

Definition set_last_query (v : value) : M unit := fun self =>
  (Ok tt, {| last_query := v; last_answer := last_answer self |}, []).

Definition set_last_answer (v : value) : M unit := fun self =>
  (Ok tt, {| last_query := last_query self; last_answer := v |}, []).

Definition get_self : M Skill := fun self => (Ok self, self, []).

(** [WolframAlphaSkill.__init__]. *)
Definition init : Skill := {| last_query := None; last_answer := None |}.

(** ** Answer extraction *)

Definition PIDS : list string :=
  ["Value"; "NotableFacts:PeopleData"; "BasicInformation:PeopleData";
   "Definition"; "DecimalApproximation"].

(** [__find_pod_id]: the text of the first pod whose id contains [pod_id]. *)
Fixpoint find_pod_id (pods : list Pod) (pod_id : string) : value :=
  match pods with
  | [] => None
  | pod :: pods' =>
      if Str.contains pod_id (id pod) then text pod
      else find_pod_id pods' pod_id
  end.

(** [__find_num]: the text of the first pod at position [pod_num]. *)
Fixpoint find_num (pods : list Pod) (pod_num : string) : value :=
  match pods with
  | [] => None
  | pod :: pods' =>
      if String.eqb (position pod) pod_num then text pod
      else find_num pods' pod_num
  end.

(** The [for pid in self.PIDS] loop of [get_result]; [result] is the
    variable of that name, and a true [result] is cut to [result[:5]]
    before the [break]. *)
Fixpoint pid_loop (pods : list Pod) (pids : list string)
    (result : value) : value :=
  match pids with
  | [] => result
  | pid :: pids' =>
      let result := find_pod_id pods pid in
      if truthy result then option_map (Str.slice_to 5) result
      else pid_loop pods pids' result
  end.

(** [get_result]: [next(res.results).text] when there is a primary
    result; [next] raises [StopIteration] on the empty sequence, and the
    handler then searches the pods. *)
Definition get_result (res : Response) : value :=
  match results res with
  | first :: _ => text first
  | [] =>
      let result := pid_loop (pods res) PIDS None in
      if negb (truthy result) then find_num (pods res) "200"
      else result
  end.

(** ** Response cleaning *)

(** The four substitutions of [process_wolfram_string], in its order. *)
Definition substitutions (text : string) : string :=
  (* Remove extra whitespace *)
  let text := re_sub (Lit " " ·· Plus Space) " " text in
  (* Convert | symbols to commas *)
  let text := re_sub (Lit " | ") ", " text in
  (* Convert newlines to commas *)
  let text := re_sub (Lit (String Str.LF "")) ", " text in
  (* Convert !s to factorial *)
  let text := re_sub (Lit "!") ",factorial" text in
  text.

Definition process_wolfram_string (host : Host) (text : string)
    : result string :=
  let text := substitutions text in
  match_ ← list_regex host text;
  match match_ with
  | Some definition => Ok definition
  | None => Ok text
  end.

(** ** The fallback handler *)

(** The language of the request, [en-us] when the message names none. *)
Definition message_lang (message : Message) : string :=
  if truthy (lang message) then pystr (lang message) else "en-us".

(** The query put to the API, ["%s %s %s" % (utt_word, utt_verb, utt_query)]. *)
Definition build_query (parsed_question : dict) : string :=
  let utt_word := get parsed_question "QuestionWord" in
  let utt_verb := get parsed_question "QuestionVerb" in
  let utt_query := get parsed_question "Query" in
  pystr utt_word +:+ " " +:+ pystr utt_verb +:+ " " +:+ pystr utt_query.

(** The assumptions made from the user settings, at the head of the
    [try] block. *)
Definition build_params (host : Host) : result params :=
  let params := [] in
  params ←
    (if bool_decide (settings host !! "forward_location" = Some "true") then
       match location host with
       | Some (Some latlong) =>
           Ok (params ++
               [("latlong", latitude latlong +:+ "," +:+ longitude latlong)])
       | Some None => Raise (KeyError "coordinate")
       | None => Raise TypeError
       end
     else Ok params);
  let params :=
    if bool_decide (date_format host = Some "MDY")
    then params ++ [("assumption", "DateOrder_**Month.Day.Year--")]
    else params ++ [("assumption", "DateOrder_**Day.Month.Year--")] in
  let params :=
    if bool_decide (system_unit host = Some "imperial")
    then params ++ [("units", "nonmetric")]
    else params ++ [("units", "metric")] in
  Ok params.

(** The body of the [try] block: the call of the API and the extraction. *)
Definition ask (host : Host) (query : string) : M value :=
  params ← lift (build_params host);
  tell MouthThink;;
  tell (Query query params);;
  res ← lift (client_query host query params);
  mret (get_result res).

Definition handle_fallback (host : Host) (message : Message) : M bool :=
  let utt := utterance message in
  tell (LogDebug ("WolframAlpha fallback attempt: " +:+ utt));;
  let lang := message_lang message in
  let utterance := normalize host utt lang in
  parsed_question ← lift (EnglishQuestionParser.parse utterance);
  if truthy_dict parsed_question then
    let query := build_query (default ∅ parsed_question) in
    tell (LogDebug ("Querying WolframAlpha: " +:+ query));;
    attempt ← trying (ask host query);
    match attempt with
    | Raise (HTTPError status_code) =>
        (if (status_code =? 401)%Z then tell (Emit "mycroft.not.paired")
         else mret tt);;
        mret true
    | Raise e =>
        tell (LogException e);;
        mret false
    | Ok result =>
        if truthy result then
          response ← lift (process_wolfram_string host (pystr result));
          (* remember for any later 'source' request *)
          set_last_query (Some query);;
          set_last_answer (Some response);;
          tell (Speak response);;
          mret true
        else
          (* len(others): the name others is bound nowhere *)
          raise (NameError "others")
    end
  else
    (* This utterance doesn't look like a question *)
    tell (LogDebug ("Non-question, ignoring: " +:+ utterance));;
    mret false.

(** ** The source request *)

(** The [data] of the email, made from the recorded query and answer. *)
Definition source_data (self : Skill) : dict :=
  <["query" := last_query self]>
  (<["answer" := last_answer self]>
  (<["url_query" := Some (Str.replace " " "+" (pystr (last_query self)))]> ∅)).

Definition handle_get_sources (host : Host) : M unit :=
  self ← get_self;
  if truthy (last_query self) then
    (* Send an email to the account this device is registered to *)
    let data := source_data self in
    tell (SendEmail (render host "email.subject" data)
                    (render host "email.body" data));;
    tell (SpeakDialog "sent.email")
  else mret tt.

(** ** The life of a skill instance

    The host calls the two handlers in any order, each time with the
    environment of that moment. *)

Inductive step : Skill -> Skill -> Prop :=
| step_fallback host message self :
    step self (state_after (handle_fallback host message self))
| step_get_sources host self :
    step self (state_after (handle_get_sources host self)).

Inductive reachable : Skill -> Prop :=
| reachable_init : reachable init
| reachable_step self self' : reachable self -> step self self' -> reachable self'.

(** * Part II: vocabulary of the properties *)

(** [p] is the pod [__find_pod_id] stops at: the first one, in the order
    of the response, whose id contains [pid]. *)
Definition first_pod_with (pid : string) (pods : list Pod) (p : Pod) : Prop :=
  exists l1 l2,
    pods = l1 ++ p :: l2 /\
    Forall (fun q => Str.contains pid (id q) = false) l1 /\
    Str.contains pid (id p) = true.

(** [m] is a text the pattern matches as a whole, with the named
    groups [g]: what the pattern denotes, whatever the order of search. *)
Inductive Matches : regex -> string -> list (string * string) -> Prop :=
| Matches_Lit l : Matches (Lit l) l []
| Matches_Star k m :
    Str.all (in_class k) m = true -> Matches (Star k) m []
| Matches_Plus k m :
    m <> "" -> Str.all (in_class k) m = true -> Matches (Plus k) m []
| Matches_Seq r1 r2 m1 m2 g1 g2 :
    Matches r1 m1 g1 -> Matches r2 m2 g2 ->
    Matches (Seq r1 r2) (m1 +:+ m2) (g1 ++ g2)
| Matches_Alt_l r1 r2 m g : Matches r1 m g -> Matches (Alt r1 r2) m g
| Matches_Alt_r r1 r2 m g : Matches r2 m g -> Matches (Alt r1 r2) m g
| Matches_Group name r m g :
    Matches r m g -> Matches (Group name r) m ((name, m) :: g).

(** A text without line feed, what [.*] can match. *)
Definition one_line (s : string) : Prop := Str.all (in_class Dot) s = true.

(** The utterance has the shape of the first pattern: a prefix, a
    question word, a subject, a copula and a predicate, separated by
    single spaces; the prefix, the subject and the predicate are on one
    line, and [rest] is what follows the predicate. *)
Definition first_pattern (utterance pre word subject verb predicate rest : string)
    : Prop :=
  utterance =
    pre +:+ word +:+ " " +:+ subject +:+ " " +:+ verb +:+ " " +:+ predicate
        +:+ rest /\
  In word ["who"; "what"; "when"; "where"; "why"; "which"; "whose"] /\
  In verb ["is"; "are"; "was"; "were"] /\
  one_line pre /\ one_line subject /\ one_line predicate.

(** The pattern of the first substitution, a space and then white space. *)
Definition spaces : regex := (Lit " " ·· Plus Space)%re.

(** The longest run of characters of class [k] at the start of [s], and
    what follows it. *)
Fixpoint take_while (k : charclass) (s : string) : string :=
  match s with
  | "" => ""
  | String c s' => if in_class k c then String c (take_while k s') else ""
  end.

Fixpoint drop_while (k : charclass) (s : string) : string :=
  match s with
  | "" => ""
  | String c s' => if in_class k c then drop_while k s' else s
  end.

(** [s] starts with a white space character. *)
Definition starts_with_space (s : string) : bool :=
  match s with
  | "" => false
  | String c _ => in_class Space c
  end.

(** No space of [s] is followed by white space: the first substitution
    finds nothing in [s]. *)
Fixpoint collapsed (s : string) : bool :=
  match s with
  | "" => true
  | String c s' =>
      negb (Ascii.eqb c " " && starts_with_space s') && collapsed s'
  end.

(** A character the last three substitutions do not look for: no pipe,
    no line feed, no exclamation mark. *)
Definition plain_char (c : ascii) : bool :=
  negb (Ascii.eqb c "|" || Ascii.eqb c Str.LF || Ascii.eqb c "!").

(** A text with no pipe, line feed or exclamation mark. *)
Definition plain (text : string) : Prop := Str.all plain_char text = true.

(** [pattern.match(text)] and then [match.group('Definition')], for a
    list pattern given as a pattern. *)
Definition definition_group (pattern : regex) (text : string) : option string :=
  match re_match pattern text with
  | Some m => snd <$> List.find (fun ng => String.eqb (fst ng) "Definition") (snd m)
  | None => None
  end.

(** A list pattern with a group Definition, spelled with blanks between
    its parts and [_] for its literal spaces:
    [(1,|1\.) _ (?P<Definition> .* ) _ (2,|2\.) _ ( .* )] *)
Definition numbered_list : regex :=
  (Alt (Lit "1,") (Lit "1.") ·· Lit " " ·· Group "Definition" (Star Dot) ··
   Lit " " ·· Alt (Lit "2,") (Lit "2.") ·· Lit " " ·· Star Dot)%re.

(** A host for the examples: it leaves utterances as they are, has no
    settings and no configuration, reads its list pattern without fail
    and renders a template as its name. *)
Definition example_host (client : string -> params -> result Response)
    (list_pattern : string -> option string) : Host :=
  {| normalize := fun utt _ => utt;
     settings := ∅;
     date_format := None;
     system_unit := None;
     location := None;
     client_query := client;
     list_regex := fun text => Ok (list_pattern text);
     render := fun template _ => template |}.

(** The utterance as the parser sees it. *)
Definition normalized (host : Host) (message : Message) : string :=
  normalize host (utterance message) (message_lang message).

(** The two debug lines of a handling that reaches the [try] block. *)
Definition preamble (message : Message) (query : string) : list event :=
  [LogDebug ("WolframAlpha fallback attempt: " +:+ utterance message);
   LogDebug ("Querying WolframAlpha: " +:+ query)].

(** URL encoding of a query string, as the specification words it, after
    [urllib.quote_plus]: letters, digits and [_.-] stand for themselves,
    a space becomes [+], any other character becomes [%XX] with its code
    in upper-case hexadecimal. *)
Definition unreserved (c : ascii) : bool :=
  in_class Word c || Ascii.eqb c "." || Ascii.eqb c "-".

Definition hex_digit (n : nat) : ascii :=
  ascii_of_nat (if n <? 10 then 48 + n else 55 + n).

Definition percent (c : ascii) : string :=
  let n := nat_of_ascii c in
  String "%" (String (hex_digit (n / 16)) (String (hex_digit (n mod 16)) "")).

Fixpoint quote_plus (s : string) : string :=
  match s with
  | "" => ""
  | String c s' =>
      (if Ascii.eqb c " " then "+"
       else if unreserved c then String c ""
       else percent c) +:+ quote_plus s'
  end.

(** The characters on which replacing spaces is URL encoding. *)
Definition url_safe (c : ascii) : bool := unreserved c || Ascii.eqb c " ".

(** The text with every space turned into [+] and nothing else changed. *)
Fixpoint spaces_to_plus (s : string) : string :=
  match s with
  | "" => ""
  | String c s' => String (if Ascii.eqb c " " then "+"%char else c) (spaces_to_plus s')
  end.

(** How many of the parameters have the key [k]. *)
Definition count_key (k : string) (ps : params) : nat :=
  length (List.filter (fun kv => String.eqb (fst kv) k) ps).

(** The question words of the two patterns. *)
Definition question_words : list string :=
  ["who"; "what"; "when"; "where"; "why"; "which"; "whose"; "how"].

(** The dict of a parsed question. *)
Definition parsed (word verb query : string) : dict :=
  <["QuestionWord" := Some word]>
  (<["QuestionVerb" := Some verb]>
  (<["Query" := Some query]> ∅)).

(** The utterance has the shape of the second pattern: a prefix, a
    question word, a verb made of word characters and a query, separated
    by single spaces; the prefix and the query are on one line, and [rest]
    is what follows the query. *)
Definition second_pattern (utterance pre word verb query rest : string) : Prop :=
  utterance = pre +:+ word +:+ " " +:+ verb +:+ " " +:+ query +:+ rest /\
  In word ["who"; "what"; "when"; "where"; "why"; "which"; "how"] /\
  verb <> "" /\ Str.all (in_class Word) verb = true /\
  one_line pre /\ one_line query.

(** [s] is empty or starts with a line feed: no [.] matches at its start. *)
Definition at_line_end (s : string) : Prop :=
  s = "" \/ exists s', s = String Str.LF s'.

(** The characters of [s] that satisfy [p], in their order. *)
Fixpoint keep (p : ascii -> bool) (s : string) : string :=
  match s with
  | "" => ""
  | String c s' => if p c then String c (keep p s') else keep p s'
  end.

Definition is_query (ev : event) : bool :=
  match ev with Query _ _ => true | _ => false end.

Definition is_speak (ev : event) : bool :=
  match ev with Speak _ => true | _ => false end.

(** The first pattern after its leading [.*]. *)
Definition regex1_tail : regex :=
  (Group "QuestionWord"
     (any_of "who" ["what"; "when"; "where"; "why"; "which"; "whose"]) ··
   Lit " " ·· Group "Query1" (Star Dot) ·· Lit " " ··
   Group "QuestionVerb" (any_of "is" ["are"; "was"; "were"]) ··
   Lit " " ·· Group "Query2" (Star Dot))%re.

(** * Part III: properties *)

#[local] Arguments in_class : simpl never.

(** ** Strings *)

Module StrFacts.
Import Str.

Lemma app_nil_r (s : string) : s +:+ "" = s.
Proof. induction s as [|c s IH]; simpl; [reflexivity | now rewrite IH]. Qed.

Lemma app_assoc (a b c : string) : (a +:+ b) +:+ c = a +:+ (b +:+ c).
Proof. induction a as [|x a IH]; simpl; [reflexivity | now rewrite IH]. Qed.

Lemma length_app (a b : string) :
  String.length (a +:+ b) = String.length a + String.length b.
Proof. induction a as [|x a IH]; simpl; [reflexivity | now rewrite IH]. Qed.

Lemma prefix_spec (p s : string) :
  String.prefix p s = true <-> exists r, s = p +:+ r.
Proof.
  revert s; induction p as [|c p IH]; intros s; simpl.
  - destruct s; split; eauto.
  - destruct s as [|d s]; simpl.
    + split; [discriminate | intros [r Hr]; discriminate].
    + destruct (ascii_dec c d) as [->|Hne].
      * rewrite IH. split; intros [r Hr]; exists r; simpl in *; congruence.
      * split; [discriminate | intros [r Hr]; simpl in Hr; congruence].
Qed.

Lemma prefix_app (p r : string) : String.prefix p (p +:+ r) = true.
Proof. apply prefix_spec; eauto. Qed.

Lemma drop_app (p r : string) : drop (String.length p) (p +:+ r) = r.
Proof. induction p as [|c p IH]; simpl; [now destruct r | exact IH]. Qed.

Lemma slice_to_prefix (n : nat) (s : string) :
  String.prefix (slice_to n s) s = true.
Proof.
  unfold slice_to. revert s; induction n as [|n IH]; intros [|c s]; simpl;
    try reflexivity.
  destruct (ascii_dec c c); [apply IH | congruence].
Qed.

Lemma slice_to_length (n : nat) (s : string) :
  String.length (slice_to n s) = Nat.min n (String.length s).
Proof.
  unfold slice_to. revert s; induction n as [|n IH]; intros [|c s]; simpl;
    try reflexivity.
  now rewrite IH.
Qed.

Lemma contains_unfold (sub s : string) :
  contains sub s =
  if String.prefix sub s then true
  else match s with
       | "" => false
       | String _ s' => contains sub s'
       end.
Proof. destruct s; reflexivity. Qed.

Lemma contains_spec (sub s : string) :
  contains sub s = true <-> exists a b, s = a +:+ sub +:+ b.
Proof.
  induction s as [|c s IH]; rewrite contains_unfold.
  - destruct (String.prefix sub "") eqn:Hp.
    + apply prefix_spec in Hp as [r Hr]. split; [|reflexivity].
      intros _. exists "", r. exact Hr.
    + split; [discriminate|]. intros (a & b & Hab).
      destruct a; simpl in Hab.
      * assert (String.prefix sub "" = true) by (apply prefix_spec; eauto).
        congruence.
      * discriminate.
  - destruct (String.prefix sub (String c s)) eqn:Hp.
    + apply prefix_spec in Hp as [r Hr]. split; [|reflexivity].
      intros _. exists "", r. exact Hr.
    + rewrite IH. split.
      * intros (a & b & ->). exists (String c a), b. reflexivity.
      * intros (a & b & Hab). destruct a as [|d a]; simpl in Hab.
        -- assert (String.prefix sub (String c s) = true)
             by (apply prefix_spec; eauto).
           congruence.
        -- injection Hab as _ ->. eauto.
Qed.

End StrFacts.

(** ** Answer extraction *)

Section Extraction.

Lemma find_pod_id_first pid pods p :
  first_pod_with pid pods p -> find_pod_id pods pid = text p.
Proof.
  intros (l1 & l2 & -> & Hl1 & Hp).
  induction Hl1 as [|q l1 Hq _ IH]; simpl.
  - now rewrite Hp.
  - now rewrite Hq.
Qed.

Lemma find_pod_id_none pid pods :
  Forall (fun q => Str.contains pid (id q) = false) pods ->
  find_pod_id pods pid = None.
Proof.
  induction 1 as [|q l Hq _ IH]; simpl; [reflexivity | now rewrite Hq].
Qed.

Lemma first_pod_with_cases pid pods :
  (exists p, first_pod_with pid pods p) \/
  Forall (fun q => Str.contains pid (id q) = false) pods.
Proof.
  induction pods as [|q l IH].
  - right; constructor.
  - destruct (Str.contains pid (id q)) eqn:Hq.
    + left. exists q, [], l. repeat split; [constructor | exact Hq].
    + destruct IH as [(p & l1 & l2 & -> & H1 & H2) | IH].
      * left. exists p, (q :: l1), l2.
        repeat split; [now constructor | exact H2].
      * right. now constructor.
Qed.

(** The pids whose search comes back false are passed over. *)
Lemma pid_loop_skip pods before rest result :
  Forall (fun q => truthy (find_pod_id pods q) = false) before ->
  exists result',
    pid_loop pods (before ++ rest) result = pid_loop pods rest result' /\
    (truthy result = false -> truthy result' = false).
Proof.
  intros H; revert result; induction H as [|q l Hq Hl IH]; intros result; simpl.
  - eauto.
  - rewrite Hq. destruct (IH (find_pod_id pods q)) as (r' & -> & Hr').
    eauto.
Qed.

Lemma truthy_slice_to n t : truthy (Some (Str.slice_to (S n) t)) = truthy (Some t).
Proof. destruct t; reflexivity. Qed.

(** The first pid, in the order of [PIDS], whose search comes back true
    decides the result. *)
Lemma get_result_selects res before pid after t :
  results res = [] ->
  PIDS = before ++ pid :: after ->
  Forall (fun q => truthy (find_pod_id (pods res) q) = false) before ->
  find_pod_id (pods res) pid = Some t ->
  t <> "" ->
  get_result res = Some (Str.slice_to 5 t).
Proof.
  intros Hres HP Hbefore Hfind Ht. unfold get_result. rewrite Hres, HP.
  destruct (pid_loop_skip (pods res) before (pid :: after) None Hbefore)
    as (r' & -> & _).
  simpl. rewrite Hfind.
  assert (Htr : truthy (Some t) = true) by (destruct t; [congruence | reflexivity]).
  rewrite Htr. simpl option_map. cbv zeta.
  rewrite truthy_slice_to, Htr. reflexivity.
Qed.

(** With every search false, the position of the pod decides. *)
Lemma get_result_position res :
  results res = [] ->
  Forall (fun q => truthy (find_pod_id (pods res) q) = false) PIDS ->
  get_result res = find_num (pods res) "200".
Proof.
  intros Hres HP. unfold get_result. rewrite Hres.
  destruct (pid_loop_skip (pods res) PIDS [] None HP) as (r' & Hr' & Hf).
  rewrite app_nil_r in Hr'. rewrite Hr'. simpl. rewrite Hf; reflexivity.
Qed.

End Extraction.

(** C3, as amended.  When the primary-result sequence is empty, [pid] is a
    priority id, every earlier priority id is found in no pod or first in
    a pod without text, and the first pod whose id contains [pid] has a
    non-empty text [t], [get_result] returns exactly the first 5
    characters of [t], all of [t] when it is shorter. *)
Theorem get_result_first_five res before pid after p t :
  results res = [] ->
  PIDS = before ++ pid :: after ->
  (forall q p', In q before -> first_pod_with q (pods res) p' ->
                truthy (text p') = false) ->
  first_pod_with pid (pods res) p ->
  text p = Some t ->
  t <> "" ->
  get_result res = Some (Str.slice_to 5 t) /\
  String.prefix (Str.slice_to 5 t) t = true /\
  String.length (Str.slice_to 5 t) = Nat.min 5 (String.length t).
Proof.
  intros Hres HP Hbefore Hp Ht Hne. split; [|split].
  - apply (get_result_selects res before pid after t); try assumption.
    + apply List.Forall_forall. intros q Hq.
      destruct (first_pod_with_cases q (pods res)) as [[p' Hp'] | Hnone].
      * rewrite (find_pod_id_first _ _ _ Hp'). now apply (Hbefore q p').
      * now rewrite (find_pod_id_none _ _ Hnone).
    + now rewrite (find_pod_id_first _ _ _ Hp).
  - apply StrFacts.slice_to_prefix.
  - apply StrFacts.slice_to_length.
Qed.

Lemma get_result_first_five_witness :
  get_result
    (mkResponse []
       [mkPod "Input" (Some "dog") "100";
        mkPod "Definition:WordData" (Some "a domesticated mammal") "200"])
  = Some "a dom".
Proof.
  refine (proj1 (get_result_first_five _
            ["Value"; "NotableFacts:PeopleData"; "BasicInformation:PeopleData"]
            "Definition" ["DecimalApproximation"]
            (mkPod "Definition:WordData" (Some "a domesticated mammal") "200")
            "a domesticated mammal" _ _ _ _ _ _)).
  - reflexivity.
  - reflexivity.
  - intros q p' Hq (l1 & l2 & Hl & _ & Hc). simpl in Hl.
    assert (Hin : In p' [mkPod "Input" (Some "dog") "100";
                         mkPod "Definition:WordData" (Some "a domesticated mammal") "200"])
      by (rewrite Hl; apply in_or_app; right; left; reflexivity).
    simpl in Hq, Hin.
    destruct Hin as [<- | [<- | []]];
      destruct Hq as [<- | [<- | [<- | []]]]; vm_compute in Hc; discriminate.
  - exists [mkPod "Input" (Some "dog") "100"], [].
    split; [reflexivity | split; [|reflexivity]].
    constructor; [reflexivity | constructor].
  - reflexivity.
  - discriminate.
Defined.

(** C3, as stated, fails: the pod whose id contains a priority id has an
    empty text, the search passes it over, and the pod at position 200
    is returned whole. *)
Lemma get_result_first_five_counterexample :
  let res :=
    mkResponse []
      [mkPod "Value" (Some "") "100"; mkPod "Result" (Some "abcdefgh") "200"] in
  results res = [] /\
  (exists pid p,
      In pid PIDS /\ In p (pods res) /\ Str.contains pid (id p) = true) /\
  get_result res = Some "abcdefgh" /\
  forall pid p,
    In pid PIDS -> In p (pods res) -> Str.contains pid (id p) = true ->
    get_result res <> option_map (Str.slice_to 5) (text p).
Proof.
  cbv zeta. split; [reflexivity | split; [|split]].
  - exists "Value", (mkPod "Value" (Some "") "100").
    split; [left; reflexivity | split; [left; reflexivity | reflexivity]].
  - reflexivity.
  - intros pid p Hpid Hp Hc. simpl in Hpid, Hp.
    destruct Hp as [<- | [<- | []]].
    + vm_compute. discriminate.
    + destruct Hpid as [<- | [<- | [<- | [<- | [<- | []]]]]];
        vm_compute in Hc; discriminate.
Qed.

(** C4.  With no primary result the priority ids are searched in the
    fixed order Value, NotableFacts:PeopleData,
    BasicInformation:PeopleData, Definition, DecimalApproximation: for the
    pods Definition with text d and Value with text v the result is v in
    either order of the pods; in general a priority id found with a text
    wins over the later ones when the earlier ones occur in no pod id; and
    when no priority id occurs in any pod id the result is the text of the
    pod at position 200. *)
Theorem get_result_priority :
  PIDS = ["Value"; "NotableFacts:PeopleData"; "BasicInformation:PeopleData";
          "Definition"; "DecimalApproximation"] /\
  (forall p1 p2,
      get_result (mkResponse [] [mkPod "Definition" (Some "d") p1;
                                 mkPod "Value" (Some "v") p2]) = Some "v") /\
  (forall p1 p2,
      get_result (mkResponse [] [mkPod "Value" (Some "v") p1;
                                 mkPod "Definition" (Some "d") p2]) = Some "v") /\
  (forall res before pid after t,
      results res = [] ->
      PIDS = before ++ pid :: after ->
      (forall q pod, In q before -> In pod (pods res) ->
                     Str.contains q (id pod) = false) ->
      find_pod_id (pods res) pid = Some t ->
      t <> "" ->
      get_result res = Some (Str.slice_to 5 t)) /\
  (forall res,
      results res = [] ->
      (forall pid pod, In pid PIDS -> In pod (pods res) ->
                       Str.contains pid (id pod) = false) ->
      get_result res = find_num (pods res) "200").
Proof.
  split; [reflexivity | split; [|split; [|split]]].
  - intros p1 p2. reflexivity.
  - intros p1 p2. reflexivity.
  - intros res before pid after t Hres HP Hbefore Hfind Ht.
    apply (get_result_selects res before pid after t); try assumption.
    apply List.Forall_forall. intros q Hq. rewrite find_pod_id_none; [reflexivity|].
    apply List.Forall_forall. intros pod Hpod. now apply (Hbefore q pod).
  - intros res Hres Hnone. apply get_result_position; [assumption|].
    apply List.Forall_forall. intros q Hq. rewrite find_pod_id_none; [reflexivity|].
    apply List.Forall_forall. intros pod Hpod. now apply Hnone.
Qed.

Lemma get_result_priority_witness :
  get_result (mkResponse [] [mkPod "Input" (Some "x") "100";
                             mkPod "Result" (Some "forty-two") "200"])
  = Some "forty-two".
Proof.
  refine (proj2 (proj2 (proj2 (proj2 get_result_priority))) _ _ _).
  - reflexivity.
  - intros pid pod Hpid Hpod. simpl in Hpid, Hpod.
    destruct Hpod as [<- | [<- | []]];
      destruct Hpid as [<- | [<- | [<- | [<- | [<- | []]]]]]; reflexivity.
Defined.

(** ** The matcher *)

Section Matcher.

Lemma star_spec k s m rest :
  In (m, rest) (star k s) <-> s = m +:+ rest /\ Str.all (in_class k) m = true.
Proof.
  revert m rest; induction s as [|c s IH]; intros m rest; simpl.
  - split.
    + intros [[= <- <-] | []]. split; reflexivity.
    + intros [Hs _]. destruct m; [|discriminate]. simpl in Hs. subst. now left.
  - destruct (in_class k c) eqn:Hc.
    + rewrite in_app_iff, in_map_iff. split.
      * intros [((m' & r') & [= <- <-] & Hin) | [[= <- <-] | []]].
        -- apply IH in Hin as [-> Hall]. simpl. rewrite Hc. now split.
        -- split; reflexivity.
      * intros [Hs Hall]. destruct m as [|d m]; simpl in Hs.
        -- right; left. now subst.
        -- injection Hs as <- ->. simpl in Hall. rewrite Hc in Hall.
           left. exists (m, rest). split; [reflexivity|]. apply IH. now split.
    + split.
      * intros [[= <- <-] | []]. split; reflexivity.
      * intros [Hs Hall]. destruct m as [|d m]; simpl in Hs.
        -- left. now subst.
        -- injection Hs as <- ->. simpl in Hall. rewrite Hc in Hall. discriminate.
Qed.

Lemma plus_spec k s m rest :
  In (m, rest) (plus k s) <->
  s = m +:+ rest /\ m <> "" /\ Str.all (in_class k) m = true.
Proof.
  destruct s as [|c s]; simpl.
  - split; [intros [] | intros (Hs & Hm & _)]. destruct m; [congruence | discriminate].
  - destruct (in_class k c) eqn:Hc.
    + rewrite in_map_iff. split.
      * intros ((m' & r') & [= <- <-] & Hin).
        apply star_spec in Hin as [-> Hall]. simpl. rewrite Hc.
        repeat split; [discriminate | assumption].
      * intros (Hs & Hm & Hall). destruct m as [|d m]; [congruence|].
        simpl in Hs. injection Hs as <- ->. simpl in Hall. rewrite Hc in Hall.
        exists (m, rest). split; [reflexivity|]. apply star_spec. now split.
    + split; [intros [] | intros (Hs & Hm & Hall)].
      destruct m as [|d m]; [congruence|].
      simpl in Hs. injection Hs as <- ->. simpl in Hall. rewrite Hc in Hall.
      discriminate.
Qed.

(** The matcher finds exactly the matches of the pattern at the start
    of the string. *)
Theorem run_spec r s m rest g :
  In (m, rest, g) (run r s) <-> s = m +:+ rest /\ Matches r m g.
Proof.
  revert s m rest g; induction r as [l | k | k | r1 IH1 r2 IH2 | r1 IH1 r2 IH2 | name r IH];
    intros s m rest g; simpl.
  - destruct (String.prefix l s) eqn:Hp.
    + apply StrFacts.prefix_spec in Hp as [r' ->]. rewrite StrFacts.drop_app. split.
      * intros [[= <- <- <-] | []]. split; [reflexivity | constructor].
      * intros [Hs HM]. inversion HM; subst. left.
        apply (inj (String.append m)) in Hs. now subst.
    + split; [intros [] | intros [-> HM]]. inversion HM; subst.
      rewrite StrFacts.prefix_app in Hp. discriminate.
  - rewrite in_map_iff. split.
    + intros ((m' & r') & [= <- <- <-] & Hin). apply star_spec in Hin as [-> Hall].
      split; [reflexivity | now constructor].
    + intros [-> HM]. inversion HM; subst. exists (m, rest).
      split; [reflexivity|]. apply star_spec. now split.
  - rewrite in_map_iff. split.
    + intros ((m' & r') & [= <- <- <-] & Hin).
      apply plus_spec in Hin as (-> & Hne & Hall).
      split; [reflexivity | now constructor].
    + intros [-> HM]. inversion HM; subst. exists (m, rest).
      split; [reflexivity|]. apply plus_spec. now repeat split.
  - rewrite in_flat_map. split.
    + intros (((m1 & s1) & g1) & Hin1 & Hin2).
      apply in_map_iff in Hin2 as (((m2 & s2) & g2) & [= <- <- <-] & Hin2).
      apply IH1 in Hin1 as [-> HM1]. apply IH2 in Hin2 as [-> HM2].
      split; [now rewrite StrFacts.app_assoc | now constructor].
    + intros [-> HM]. inversion HM; subst.
      exists (m1, m2 +:+ rest, g1). split.
      * apply IH1. split; [apply StrFacts.app_assoc | assumption].
      * apply in_map_iff. exists (m2, rest, g2). split; [reflexivity|].
        apply IH2. now split.
  - rewrite in_app_iff, IH1, IH2. split.
    + intros [[-> HM] | [-> HM]]; (split; [reflexivity|]);
        [now apply Matches_Alt_l | now apply Matches_Alt_r].
    + intros [-> HM]. inversion HM; subst; [left | right]; now split.
  - rewrite in_map_iff. split.
    + intros (((m' & s') & g') & [= <- <- <-] & Hin). apply IH in Hin as [-> HM].
      split; [reflexivity | now constructor].
    + intros [-> HM]. inversion HM; subst. exists (m, rest, g0).
      split; [reflexivity|]. apply IH. now split.
Qed.

(** [pattern.match] succeeds exactly when the pattern matches a prefix
    of the string, and what it returns is such a match. *)
Lemma re_match_Some r s x :
  re_match r s = Some x ->
  s = fst (fst x) +:+ snd (fst x) /\ Matches r (fst (fst x)) (snd x).
Proof.
  unfold re_match. intros H. destruct x as [[m rest] g]. apply run_spec.
  destruct (run r s) as [|y l]; [discriminate|]. injection H as ->. now left.
Qed.

Lemma re_match_complete r m rest g :
  Matches r m g -> exists x, re_match r (m +:+ rest) = Some x.
Proof.
  intros HM. assert (Hin : In (m, rest, g) (run r (m +:+ rest)))
    by (apply run_spec; now split).
  unfold re_match. destruct (run r (m +:+ rest)) as [|y l]; [destruct Hin | eauto].
Qed.

Lemma any_of_spec w ws m g :
  Matches (any_of w ws) m g <-> In m (w :: ws) /\ g = [].
Proof.
  revert w; induction ws as [|w' ws IH]; intros w; simpl.
  - split.
    + intros HM. inversion HM; subst. auto.
    + intros [[<- | []] ->]. constructor.
  - split.
    + intros HM. inversion HM as [| | | | ? ? ? ? HM' | ? ? ? ? HM' |]; subst.
      * inversion HM'; subst. auto.
      * apply IH in HM' as [Hin ->]. auto.
    + intros [[<- | Hin] ->].
      * apply Matches_Alt_l. constructor.
      * apply Matches_Alt_r. apply IH. now split.
Qed.

End Matcher.

(** ** The question parser *)

Section Parser.
Import EnglishQuestionParser.

Ltac invert_matches :=
  repeat match goal with
    | H : Matches (Seq _ _) _ _ |- _ => inversion H; subst; clear H
    | H : Matches (Group _ _) _ _ |- _ => inversion H; subst; clear H
    | H : Matches (Lit _) _ _ |- _ => inversion H; subst; clear H
    | H : Matches (Star _) _ _ |- _ => inversion H; subst; clear H
    | H : Matches (Plus _) _ _ |- _ => inversion H; subst; clear H
    | H : Matches (Alt (Lit ?w) ?r) _ _ |- _ =>
        match r with
        | context [Lit "whose"] =>
            apply (any_of_spec "who"
                     ["what"; "when"; "where"; "why"; "which"; "whose"]) in H
              as [? ->]
        | context [Lit "how"] =>
            apply (any_of_spec "who"
                     ["what"; "when"; "where"; "why"; "which"; "how"]) in H
              as [? ->]
        | context [Lit "were"] =>
            apply (any_of_spec "is" ["are"; "was"; "were"]) in H as [? ->]
        end
    end.

(** What the first pattern denotes. *)
Lemma regex1_spec m g :
  Matches regex1 m g <->
  exists pre w q1 v q2,
    m = pre +:+ w +:+ " " +:+ q1 +:+ " " +:+ v +:+ " " +:+ q2 /\
    g = [("QuestionWord", w); ("Query1", q1); ("QuestionVerb", v); ("Query2", q2)] /\
    In w ["who"; "what"; "when"; "where"; "why"; "which"; "whose"] /\
    In v ["is"; "are"; "was"; "were"] /\
    one_line pre /\ one_line q1 /\ one_line q2.
Proof.
  unfold regex1, one_line. split.
  - intros HM. invert_matches.
    match goal with
    | |- exists _ _ _ _ _, ?p +:+ ?w +:+ _ +:+ ?q1 +:+ _ +:+ ?v +:+ _ +:+ ?q2 = _ /\ _ =>
        exists p, w, q1, v, q2
    end.
    repeat split; assumption.
  - intros (pre & w & q1 & v & q2 & -> & -> & Hw & Hv & Hpre & Hq1 & Hq2).
    apply (Matches_Seq _ _ pre _ [] _); [now constructor|].
    apply (Matches_Seq _ _ w _ [("QuestionWord", w)] _).
    { constructor. apply any_of_spec. now split. }
    apply (Matches_Seq _ _ " " _ [] _); [constructor|].
    apply (Matches_Seq _ _ q1 _ [("Query1", q1)] _).
    { constructor. now constructor. }
    apply (Matches_Seq _ _ " " _ [] _); [constructor|].
    apply (Matches_Seq _ _ v _ [("QuestionVerb", v)] _).
    { constructor. apply any_of_spec. now split. }
    apply (Matches_Seq _ _ " " _ [] [("Query2", q2)]); [constructor|].
    constructor. now constructor.
Qed.

(** [_normalize] on the groups of the first pattern. *)
Lemma _normalize_groups1 m rest w q1 v q2 :
  _normalize (groupdict (m, rest,
                [("QuestionWord", w); ("Query1", q1);
                 ("QuestionVerb", v); ("Query2", q2)])) =
  Ok (Some (<["QuestionWord" := Some w]>
           (<["QuestionVerb" := Some v]>
           (<["Query" := Some (q1 +:+ " " +:+ q2)]> ∅)))).
Proof. reflexivity. Qed.

Lemma first_pattern_text utterance pre w q1 v q2 rest :
  first_pattern utterance pre w q1 v q2 rest ->
  utterance =
    (pre +:+ w +:+ " " +:+ q1 +:+ " " +:+ v +:+ " " +:+ q2) +:+ rest.
Proof.
  intros [-> _]. now rewrite !StrFacts.app_assoc.
Qed.

(** The first pattern matches exactly the utterances of its shape. *)
Lemma regex1_matches utterance :
  (exists x, re_match regex1 utterance = Some x) <->
  (exists pre w q1 v q2 rest, first_pattern utterance pre w q1 v q2 rest).
Proof.
  split.
  - intros [[[m rest] g] Hx]. apply re_match_Some in Hx as [Hs HM]. simpl in *.
    apply regex1_spec in HM
      as (pre & w & q1 & v & q2 & -> & -> & Hw & Hv & Hpre & Hq1 & Hq2).
    exists pre, w, q1, v, q2, rest. split; [|now repeat split].
    rewrite Hs. now rewrite !StrFacts.app_assoc.
  - intros (pre & w & q1 & v & q2 & rest & H).
    rewrite (first_pattern_text _ _ _ _ _ _ _ H).
    destruct H as (_ & Hw & Hv & Hpre & Hq1 & Hq2).
    eapply re_match_complete. apply regex1_spec.
    exists pre, w, q1, v, q2. now repeat split.
Qed.

(** C5.  For every utterance that the first pattern matches, [parse]
    returns a dict, not [None].  The match splits the utterance into a
    prefix, a question word among who, what, when, where, why, which and
    whose, a subject, a copula among is, are, was and were, and a
    predicate; the question word and the verb of the dict are these
    matched tokens, and its query is the subject, a single space and the
    predicate, in that order. *)
Theorem parse_first_pattern utterance :
  (exists m, re_match regex1 utterance = Some m) ->
  exists pre w q1 v q2 rest,
    first_pattern utterance pre w q1 v q2 rest /\
    re_match regex1 utterance =
      Some (pre +:+ w +:+ " " +:+ q1 +:+ " " +:+ v +:+ " " +:+ q2, rest,
            [("QuestionWord", w); ("Query1", q1);
             ("QuestionVerb", v); ("Query2", q2)]) /\
    parse utterance =
      Ok (Some (<["QuestionWord" := Some w]>
               (<["QuestionVerb" := Some v]>
               (<["Query" := Some (q1 +:+ " " +:+ q2)]> ∅)))).
Proof.
  intros [[[m rest] g] Hx].
  pose proof (re_match_Some _ _ _ Hx) as [Hs HM]. simpl in Hs, HM.
  apply regex1_spec in HM
    as (pre & w & q1 & v & q2 & -> & -> & Hw & Hv & Hpre & Hq1 & Hq2).
  exists pre, w, q1, v, q2, rest. split; [|split].
  - split; [|now repeat split]. rewrite Hs. now rewrite !StrFacts.app_assoc.
  - exact Hx.
  - unfold parse, regexes, parse_with. rewrite Hx. apply _normalize_groups1.
Qed.

Lemma parse_first_pattern_witness :
  exists pre w q1 v q2 rest,
    first_pattern "tell me when america was founded" pre w q1 v q2 rest /\
    re_match regex1 "tell me when america was founded" =
      Some (pre +:+ w +:+ " " +:+ q1 +:+ " " +:+ v +:+ " " +:+ q2, rest,
            [("QuestionWord", w); ("Query1", q1);
             ("QuestionVerb", v); ("Query2", q2)]) /\
    parse "tell me when america was founded" =
      Ok (Some (<["QuestionWord" := Some w]>
               (<["QuestionVerb" := Some v]>
               (<["Query" := Some (q1 +:+ " " +:+ q2)]> ∅)))).
Proof.
  apply (parse_first_pattern "tell me when america was founded").
  eexists. vm_compute. reflexivity.
Defined.

(** The second pattern, and that [parse] raises nothing. *)
Lemma regex2_groups m g :
  Matches regex2 m g ->
  exists w v q,
    g = [("QuestionWord", w); ("QuestionVerb", v); ("Query", q)].
Proof.
  unfold regex2. intros HM. invert_matches. simpl. eauto.
Qed.

Lemma parse_total utterance : exists r, parse utterance = Ok r.
Proof.
  unfold parse, regexes, parse_with.
  destruct (re_match regex1 utterance) as [[[m rest] g]|] eqn:H1.
  - apply re_match_Some in H1 as [_ HM]. simpl in HM.
    apply regex1_spec in HM as (pre & w & q1 & v & q2 & _ & -> & _).
    rewrite _normalize_groups1. eauto.
  - destruct (re_match regex2 utterance) as [[[m rest] g]|] eqn:H2; [|eauto].
    apply re_match_Some in H2 as [_ HM]. simpl in HM.
    apply regex2_groups in HM as (w & v & q & ->). eexists. reflexivity.
Qed.

End Parser.

(** ** Response cleaning *)

Section Cleaning.

Lemma all_app p a b : Str.all p (a +:+ b) = Str.all p a && Str.all p b.
Proof.
  induction a as [|c a IH]; simpl; [reflexivity|].
  now rewrite IH, andb_assoc.
Qed.

Lemma prefix_all p l t :
  String.prefix l t = true -> Str.all p t = true -> Str.all p l = true.
Proof.
  intros Hp Ht. apply StrFacts.prefix_spec in Hp as [r ->].
  rewrite all_app in Ht. now apply andb_true_iff in Ht as [Hl _].
Qed.

(** A substitution adds no character that its replacement does not have. *)
Lemma sub_from_all p pattern repl s skip :
  Str.all p repl = true -> Str.all p s = true ->
  Str.all p (sub_from pattern repl s skip) = true.
Proof.
  intros Hrepl. revert skip; induction s as [|c s IH]; intros skip Hs; simpl.
  - reflexivity.
  - simpl in Hs. apply andb_true_iff in Hs as [Hc Hs].
    destruct skip as [|k]; [|now apply IH].
    destruct (re_match pattern (String c s)) as [[[[|d m'] rest] g]|].
    + simpl. now rewrite Hc, IH.
    + rewrite all_app, Hrepl. now apply IH.
    + simpl. now rewrite Hc, IH.
Qed.

Lemma sub_from_0 pattern repl c s :
  sub_from pattern repl (String c s) 0 =
  match re_match pattern (String c s) with
  | Some (String _ m', _, _) => repl +:+ sub_from pattern repl s (String.length m')
  | _ => String c (sub_from pattern repl s 0)
  end.
Proof. reflexivity. Qed.

Lemma re_match_Lit l s :
  re_match (Lit l) s =
  if String.prefix l s then Some (l, Str.drop (String.length l) s, []) else None.
Proof. unfold re_match. simpl run. now destruct (String.prefix l s). Qed.

(** A literal with a character that the text does not have is not found. *)
Lemma re_sub_Lit_absent p l repl s :
  Str.all p l = false -> Str.all p s = true -> re_sub (Lit l) repl s = s.
Proof.
  intros Hl. unfold re_sub. induction s as [|c s IH]; intros Hs.
  - reflexivity.
  - rewrite sub_from_0, re_match_Lit.
    destruct (String.prefix l (String c s)) eqn:Hp.
    + rewrite (prefix_all p _ _ Hp Hs) in Hl. discriminate.
    + simpl in Hs. apply andb_true_iff in Hs as [_ Hs]. now rewrite IH.
Qed.

Lemma star_head k s :
  head (star k s) = Some (take_while k s, drop_while k s).
Proof.
  induction s as [|c s IH]; simpl; [reflexivity|].
  destruct (in_class k c); [|reflexivity].
  destruct (star k s) as [|[m r] l]; [discriminate|].
  simpl in *. now injection IH as -> ->.
Qed.

Lemma prefix_space c s : String.prefix " " (String c s) = Ascii.eqb c " ".
Proof.
  unfold String.prefix. destruct (ascii_dec " " c) as [<-|Hne].
  - now destruct s.
  - symmetry. apply Ascii.eqb_neq. congruence.
Qed.

(** What the first substitution finds at the start of a text. *)
Lemma re_match_spaces c s :
  re_match spaces (String c s) =
  if Ascii.eqb c " " && starts_with_space s
  then Some (String " " (take_while Space s), drop_while Space s, [])
  else None.
Proof.
  unfold re_match, spaces. cbn [run]. rewrite prefix_space.
  destruct (Ascii.eqb c " "); [|reflexivity].
  cbn [flat_map Str.drop String.length andb].
  destruct s as [|d s]; [reflexivity|].
  cbn [plus starts_with_space take_while drop_while].
  destruct (in_class Space d) eqn:Hd; [|reflexivity].
  pose proof (star_head Space s) as Hh.
  destruct (star Space s) as [|[m r] l]; [discriminate|].
  simpl in *. now injection Hh as -> ->.
Qed.

Lemma sub_from_skip pattern repl s skip :
  sub_from pattern repl s skip = sub_from pattern repl (Str.drop skip s) 0.
Proof.
  revert skip; induction s as [|c s IH]; intros [|k]; try reflexivity.
  simpl. apply IH.
Qed.

Lemma drop_take_while k s :
  Str.drop (String.length (take_while k s)) s = drop_while k s.
Proof.
  induction s as [|c s IH]; simpl; [reflexivity|].
  destruct (in_class k c); [exact IH | reflexivity].
Qed.

Lemma drop_while_length k s : String.length (drop_while k s) <= String.length s.
Proof.
  induction s as [|c s IH]; simpl; [lia|]. destruct (in_class k c); simpl; lia.
Qed.

Lemma drop_while_start s : starts_with_space (drop_while Space s) = false.
Proof.
  induction s as [|c s IH]; simpl; [reflexivity|].
  destruct (in_class Space c) eqn:Hc; [exact IH | simpl; exact Hc].
Qed.

(** The two cases of the first substitution at the start of a text. *)
Lemma re_sub_spaces_unfold c s :
  re_sub spaces " " (String c s) =
  if Ascii.eqb c " " && starts_with_space s
  then String " " (re_sub spaces " " (drop_while Space s))
  else String c (re_sub spaces " " s).
Proof.
  unfold re_sub at 1. rewrite sub_from_0, re_match_spaces.
  destruct (Ascii.eqb c " " && starts_with_space s); [|reflexivity].
  rewrite sub_from_skip, drop_take_while. reflexivity.
Qed.

Lemma re_sub_spaces_start s :
  starts_with_space (re_sub spaces " " s) = starts_with_space s.
Proof.
  destruct s as [|c s]; [reflexivity|]. rewrite re_sub_spaces_unfold.
  destruct (Ascii.eqb c " " && starts_with_space s) eqn:H; [|reflexivity].
  apply andb_true_iff in H as [Hc _]. apply Ascii.eqb_eq in Hc as ->. reflexivity.
Qed.

(** After the first substitution no space is followed by white space. *)
Lemma re_sub_spaces_collapsed s : collapsed (re_sub spaces " " s) = true.
Proof.
  remember (String.length s) as n eqn:Hn.
  revert s Hn; induction n as [n IH] using lt_wf_ind; intros s Hn.
  destruct s as [|c s]; [reflexivity|]. rewrite re_sub_spaces_unfold.
  destruct (Ascii.eqb c " " && starts_with_space s) eqn:H.
  - cbn [collapsed].
    rewrite re_sub_spaces_start, drop_while_start, andb_false_r.
    cbn [negb andb].
    apply (IH (String.length (drop_while Space s))); [|reflexivity].
    pose proof (drop_while_length Space s). simpl in Hn. lia.
  - cbn [collapsed]. rewrite re_sub_spaces_start, H. cbn [negb andb].
    apply (IH (String.length s)); [simpl in Hn; lia | reflexivity].
Qed.

(** And on such a text the first substitution changes nothing. *)
Lemma re_sub_spaces_id s : collapsed s = true -> re_sub spaces " " s = s.
Proof.
  induction s as [|c s IH]; intros H; [reflexivity|].
  rewrite re_sub_spaces_unfold. cbn [collapsed] in H.
  apply andb_true_iff in H as [H1 H2]. apply negb_true_iff in H1.
  rewrite H1. now rewrite IH.
Qed.

Lemma collapsed_app a b : collapsed (a +:+ b) = true -> collapsed a = true /\ collapsed b = true.
Proof.
  induction a as [|c a IH]; [now split|].
  change (String c a +:+ b) with (String c (a +:+ b)). cbn [collapsed].
  intros H. apply andb_true_iff in H as [H1 H2]. apply IH in H2 as [Ha Hb].
  split; [|exact Hb]. rewrite Ha, andb_true_r.
  destruct a as [|d a]; [now rewrite andb_false_r | exact H1].
Qed.

(** On a plain text that the first substitution leaves alone the four
    substitutions change nothing. *)
Lemma substitutions_id s :
  plain s -> collapsed s = true -> substitutions s = s.
Proof.
  intros Hp Hc. unfold substitutions. fold spaces.
  rewrite (re_sub_spaces_id s Hc).
  rewrite (re_sub_Lit_absent plain_char " | " ", " s); [|reflexivity | exact Hp].
  rewrite (re_sub_Lit_absent plain_char _ ", " s); [|reflexivity | exact Hp].
  now rewrite (re_sub_Lit_absent plain_char "!" ",factorial" s).
Qed.

(** On a plain text the four substitutions come down to the first. *)
Lemma substitutions_plain s :
  plain s -> substitutions s = re_sub spaces " " s /\ plain (substitutions s).
Proof.
  intros Hp.
  assert (Hp1 : plain (re_sub spaces " " s))
    by (apply sub_from_all; [reflexivity | exact Hp]).
  assert (Heq : substitutions s = re_sub spaces " " s).
  { unfold substitutions. fold spaces.
    rewrite (re_sub_Lit_absent plain_char " | " ", " _); [|reflexivity | exact Hp1].
    rewrite (re_sub_Lit_absent plain_char _ ", " _); [|reflexivity | exact Hp1].
    now rewrite (re_sub_Lit_absent plain_char "!" ",factorial" _). }
  split; [exact Heq | now rewrite Heq].
Qed.

Lemma substitutions_twice s :
  plain s -> substitutions (substitutions s) = substitutions s.
Proof.
  intros Hp. destruct (substitutions_plain s Hp) as [Heq Hp'].
  apply substitutions_id; [exact Hp'|]. rewrite Heq. apply re_sub_spaces_collapsed.
Qed.

Lemma substitutions_part s d :
  plain s -> Str.contains d (substitutions s) = true -> substitutions d = d.
Proof.
  intros Hp Hd. destruct (substitutions_plain s Hp) as [Heq Hp'].
  apply StrFacts.contains_spec in Hd as (a & b & Hd).
  apply substitutions_id.
  - unfold plain in *. rewrite Hd, !all_app in Hp'.
    apply andb_true_iff in Hp' as [_ Hp']. now apply andb_true_iff in Hp' as [Hp' _].
  - pose proof (re_sub_spaces_collapsed s) as Hc. rewrite <- Heq, Hd in Hc.
    apply collapsed_app in Hc as [_ Hc]. now apply collapsed_app in Hc as [Hc _].
Qed.

End Cleaning.

(** C6.  The substitutions are applied in the fixed order: a space with
    the white space after it becomes one space, then " | " becomes ", ",
    then a line feed becomes ", ", then "!" becomes ",factorial"; on the
    input "A | B", line feed, "C!" they give "A, B, C,factorial", the text
    handed to the list-pattern stage.  Each step and each order that
    matters shows on an input: runs of spaces and of mixed white space are
    collapsed, and before the pipes are looked for, so that "A  | B" gives
    "A, B"; the pipes are replaced without overlap, and before the line
    feeds, so that a pipe after a line feed stays; a line feed after a
    space goes with the white space, while the space after a line feed is
    not collapsed with the space that the line feed becomes; and every
    exclamation mark is replaced. *)
Theorem substitutions_order :
  (forall text,
      substitutions text =
      re_sub (Lit "!") ",factorial"
        (re_sub (Lit (String Str.LF "")) ", "
           (re_sub (Lit " | ") ", "
              (re_sub (Lit " " ·· Plus Space) " " text)))) /\
  substitutions ("A | B" +:+ String Str.LF "C!") = "A, B, C,factorial" /\
  Str.contains "A, B, C,factorial"
    (substitutions ("A | B" +:+ String Str.LF "C!")) = true /\
  substitutions ("a" +:+ String Str.LF " b") = "a,  b" /\
  (forall host,
      process_wolfram_string host ("A | B" +:+ String Str.LF "C!") =
      match list_regex host "A, B, C,factorial" with
      | Ok (Some definition) => Ok definition
      | Ok None => Ok "A, B, C,factorial"
      | Raise e => Raise e
      end) /\
  substitutions "a     b  c" = "a b c" /\
  substitutions ("a " +:+ String (ascii_of_nat 9) " b  ") = "a b " /\
  substitutions "A  | B" = "A, B" /\
  substitutions " | | " = ", | " /\
  substitutions ("A" +:+ String Str.LF "| B") = "A, | B" /\
  substitutions (String Str.LF (String Str.LF "")) = ", , " /\
  substitutions "3! + 2!" = "3,factorial + 2,factorial" /\
  substitutions ("x  | y ! " +:+ String Str.LF " z") = "x, y ,factorial z".
Proof.
  split; [reflexivity | split; [reflexivity | split; [reflexivity|]]].
  split; [reflexivity|]. split.
  - intros host. unfold process_wolfram_string, mbind, result_bind.
    change (substitutions ("A | B" +:+ String Str.LF "C!"))
      with "A, B, C,factorial".
    destruct (list_regex host "A, B, C,factorial") as [[d|]|e]; reflexivity.
  - repeat split; vm_compute; reflexivity.
Qed.

(** C7, as amended.  On a text with no pipe, line feed or exclamation
    mark the four substitutions are idempotent; and the whole of
    [process_wolfram_string] is idempotent on it whenever the list pattern
    does not match the substituted text, or matches it with a Definition
    that is a part of that text and that the list pattern does not match
    again or gives back unchanged. *)
Theorem process_wolfram_string_idempotent host text :
  plain text ->
  substitutions (substitutions text) = substitutions text /\
  ((forall d,
       list_regex host (substitutions text) = Ok (Some d) ->
       Str.contains d (substitutions text) = true /\
       (list_regex host d = Ok None \/ list_regex host d = Ok (Some d))) ->
   (process_wolfram_string host text ≫= process_wolfram_string host) =
   process_wolfram_string host text).
Proof.
  intros Hp. split; [now apply substitutions_twice|].
  intros Hlist. unfold process_wolfram_string, mbind, result_bind.
  destruct (list_regex host (substitutions text)) as [[d|]|e] eqn:Hd.
  - destruct (Hlist d eq_refl) as [Hpart Hagain].
    rewrite (substitutions_part text d Hp Hpart).
    destruct Hagain as [-> | ->]; reflexivity.
  - rewrite (substitutions_twice text Hp), Hd. reflexivity.
  - reflexivity.
Qed.

Lemma process_wolfram_string_idempotent_witness :
  let host := example_host (fun _ _ => Ok (mkResponse [] []))
                           (definition_group numbered_list) in
  let text := "1, noun,  a dog 2, verb,  to follow" in
  process_wolfram_string host text = Ok "noun, a dog" /\
  (process_wolfram_string host text ≫= process_wolfram_string host) =
  process_wolfram_string host text.
Proof.
  cbv zeta. split; [reflexivity|].
  refine (proj2 (process_wolfram_string_idempotent _ _ _) _).
  - reflexivity.
  - intros d Hd. vm_compute in Hd. injection Hd as <-.
    split; [reflexivity | left; reflexivity].
Defined.

(** C7, as stated, fails: with a list pattern for numbered lists the
    Definition taken from a cleaned text is itself a numbered list, and
    cleaning it again takes a Definition out of it. *)
Lemma process_wolfram_string_idempotent_counterexample :
  let host := example_host (fun _ _ => Ok (mkResponse [] []))
                           (definition_group numbered_list) in
  let text := "1, 1, x 2, y 2, z" in
  plain text /\
  process_wolfram_string host text = Ok "1, x 2, y" /\
  process_wolfram_string host "1, x 2, y" = Ok "x" /\
  (process_wolfram_string host text ≫= process_wolfram_string host) = Ok "x" /\
  (process_wolfram_string host text ≫= process_wolfram_string host) <>
  process_wolfram_string host text.
Proof.
  cbv zeta. repeat split; try reflexivity.
  vm_compute. discriminate.
Qed.

(** ** The fallback handler *)

Section Handler.
Import EnglishQuestionParser.

(** The [try] block leaves the state alone; it raises what building the
    assumptions or the client raises. *)
Lemma ask_eq host query self :
  ask host query self =
  match build_params host with
  | Ok ps =>
      (match client_query host query ps with
       | Ok res => Ok (get_result res)
       | Raise e => Raise e
       end, self, [MouthThink; Query query ps])
  | Raise e => (Raise e, self, [])
  end.
Proof.
  unfold ask, mbind, M_bind, lift, tell, mret, M_ret.
  destruct (build_params host) as [ps|e]; [|reflexivity].
  destruct (client_query host query ps) as [res|e]; reflexivity.
Qed.

(** What a handling does, case by case. *)
Lemma handle_fallback_eq host message self :
  handle_fallback host message self =
  match parse (normalized host message) with
  | Raise e =>
      (Raise e, self,
       [LogDebug ("WolframAlpha fallback attempt: " +:+ utterance message)])
  | Ok parsed_question =>
      if truthy_dict parsed_question then
        let query := build_query (default ∅ parsed_question) in
        let evs := preamble message query ++ events (ask host query self) in
        match outcome (ask host query self) with
        | Raise (HTTPError status_code) =>
            (Ok true, self,
             evs ++ if (status_code =? 401)%Z
                    then [Emit "mycroft.not.paired"] else [])
        | Raise e => (Ok false, self, evs ++ [LogException e])
        | Ok result =>
            if truthy result then
              match process_wolfram_string host (pystr result) with
              | Ok response =>
                  (Ok true,
                   {| last_query := Some query; last_answer := Some response |},
                   evs ++ [Speak response])
              | Raise e => (Raise e, self, evs)
              end
            else (Raise (NameError "others"), self, evs)
        end
      else
        (Ok false, self,
         [LogDebug ("WolframAlpha fallback attempt: " +:+ utterance message);
          LogDebug ("Non-question, ignoring: " +:+ normalized host message)])
  end.
Proof.
  unfold handle_fallback, normalized.
  unfold mbind at 1 2. unfold M_bind at 1 2. unfold tell at 1. unfold lift at 1.
  destruct (parse _) as [pq|e]; [|reflexivity].
  destruct (truthy_dict pq); [|reflexivity].
  cbv zeta.
  unfold ask, mbind, M_bind, tell, lift, trying, mret, M_ret, raise, set_last_query,
    set_last_answer, preamble, outcome, events.
  destruct (build_params host) as [ps|e].
  - destruct (client_query host _ ps) as [res|e].
    + cbn. destruct (truthy (get_result res)); [|reflexivity].
      destruct (process_wolfram_string host _); reflexivity.
    + cbn. destruct e as [sc| | | |]; try reflexivity.
      destruct (sc =? 401)%Z; reflexivity.
  - cbn. destruct e as [sc| | | |]; try reflexivity.
    destruct (sc =? 401)%Z; reflexivity.
Qed.

Lemma build_query_true d : truthy (Some (build_query d)) = true.
Proof.
  unfold build_query. destruct (pystr (get d "QuestionWord")); reflexivity.
Qed.

Lemma truthy_dict_Some pq :
  truthy_dict pq = true <-> exists d, pq = Some d /\ d <> ∅.
Proof.
  destruct pq as [d|]; simpl.
  - rewrite negb_true_iff, bool_decide_eq_false. split.
    + intros Hd. eauto.
    + now intros (d' & [= <-] & Hd).
  - split; [discriminate | now intros (d & [=] & _)].
Qed.

(** The events of the [try] block: nothing, or the thinking cue and the
    query with the assumptions built from the settings. *)
Lemma ask_events host query self :
  events (ask host query self) = [] \/
  exists ps, build_params host = Ok ps /\
             events (ask host query self) = [MouthThink; Query query ps].
Proof.
  rewrite ask_eq. destruct (build_params host) as [ps|e]; [right | left]; eauto.
Qed.

(** A handling either leaves the state as it was and says nothing, or it
    is an answered question: the API returned a response from which a
    non-empty text was extracted and cleaned, the cleaned text is spoken
    last, and the query and the cleaned text are recorded together. *)
Lemma handle_fallback_cases host message self :
  (state_after (handle_fallback host message self) = self /\
   forall a, ~ In (Speak a) (events (handle_fallback host message self))) \/
  (exists d ps res t response,
      parse (normalized host message) = Ok (Some d) /\ d <> ∅ /\
      build_params host = Ok ps /\
      client_query host (build_query d) ps = Ok res /\
      get_result res = Some t /\ t <> "" /\
      process_wolfram_string host t = Ok response /\
      handle_fallback host message self =
        (Ok true,
         {| last_query := Some (build_query d);
            last_answer := Some response |},
         preamble message (build_query d) ++
         [MouthThink; Query (build_query d) ps; Speak response])).
Proof.
  rewrite handle_fallback_eq.
  destruct (parse _) as [pq|e] eqn:Hparse.
  2:{ left. split; [reflexivity|]. intros a [H|[]]; discriminate. }
  destruct (truthy_dict pq) eqn:Hq.
  2:{ left. split; [reflexivity|]. intros a [H|[H|[]]]; discriminate. }
  apply truthy_dict_Some in Hq as (d & -> & Hd). cbv zeta.
  rewrite ask_eq. unfold outcome, events, preamble. simpl default.
  destruct (build_params host) as [ps|e] eqn:Hps.
  - destruct (client_query host _ ps) as [res|e] eqn:Hres; cbn [fst snd].
    + destruct (get_result res) as [[|c t]|] eqn:Ht; cbn [truthy].
      * left. split; [reflexivity|]. intros a H. simpl in H.
        repeat destruct H as [H|H]; try discriminate; destruct H.
      * change (pystr (Some (String c t))) with (String c t).
        destruct (process_wolfram_string host (String c t)) as [response|e] eqn:Hp.
        -- right. exists d, ps, res, (String c t), response.
           repeat split; first [assumption | discriminate].
        -- left. split; [reflexivity|]. intros a H. simpl in H.
           repeat destruct H as [H|H]; try discriminate; destruct H.
      * left. split; [reflexivity|]. intros a H. simpl in H.
        repeat destruct H as [H|H]; try discriminate; destruct H.
    + left. destruct e as [sc| | | |]; try destruct (sc =? 401)%Z;
        (split; [reflexivity|]); intros a H; simpl in H;
        repeat destruct H as [H|H]; try discriminate; destruct H.
  - left. cbn [fst snd]. destruct e as [sc| | | |]; try destruct (sc =? 401)%Z;
      (split; [reflexivity|]); intros a H; simpl in H;
      repeat destruct H as [H|H]; try discriminate; destruct H.
Qed.

(** A query reaches the client only with the assumptions built from the
    settings. *)
Lemma handle_fallback_query host message self query ps :
  In (Query query ps) (events (handle_fallback host message self)) ->
  build_params host = Ok ps.
Proof.
  rewrite handle_fallback_eq.
  destruct (parse _) as [pq|e].
  2:{ intros [H|[]]; discriminate. }
  destruct (truthy_dict pq).
  2:{ intros [H|[H|[]]]; discriminate. }
  cbv zeta. rewrite ask_eq. unfold outcome, events, preamble.
  destruct (build_params host) as [ps'|e] eqn:Hps.
  - destruct (client_query host _ ps') as [res|e]; cbn [fst snd].
    + destruct (truthy (get_result res));
        [destruct (process_wolfram_string host _)|]; intros H; simpl in H;
        repeat destruct H as [H|H]; try discriminate; try (now destruct H);
        now injection H as _ ->.
    + destruct e as [sc| | | |]; try destruct (sc =? 401)%Z;
        intros H; simpl in H;
        repeat destruct H as [H|H]; try discriminate; try (now destruct H);
        now injection H as _ ->.
  - cbn [fst snd]. destruct e as [sc| | | |]; try destruct (sc =? 401)%Z;
      intros H; simpl in H;
      repeat destruct H as [H|H]; try discriminate; now destruct H.
Qed.

Lemma handle_get_sources_eq host self :
  handle_get_sources host self =
  if truthy (last_query self) then
    (Ok tt, self,
     [SendEmail (render host "email.subject" (source_data self))
                (render host "email.body" (source_data self));
      SpeakDialog "sent.email"])
  else (Ok tt, self, []).
Proof.
  unfold handle_get_sources, mbind, M_bind, get_self, tell, mret, M_ret.
  cbn. destruct (truthy (last_query self)); reflexivity.
Qed.

(** In every state the skill can be in, the query and the answer are
    recorded both or neither, and a recorded query is not empty. *)
Lemma reachable_record self :
  reachable self ->
  (last_query self = None /\ last_answer self = None) \/
  (exists q a, last_query self = Some q /\ last_answer self = Some a /\
               truthy (Some q) = true).
Proof.
  induction 1 as [|self self' _ IH Hstep].
  - left. split; reflexivity.
  - destruct Hstep as [host message self | host self].
    + destruct (handle_fallback_cases host message self)
        as [[-> _] | (d & ps & res & t & response & _ & _ & _ & _ & _ & _ & _ & ->)].
      * exact IH.
      * right. exists (build_query d), response.
        repeat split. apply build_query_true.
    + rewrite handle_get_sources_eq.
      destruct (truthy (last_query self)); exact IH.
Qed.

(** C1, as amended.  When the call of the API raises an HTTP error the
    handler returns true, with no exception escaping and without logging
    the error, and it emits the pairing event exactly when the status is
    401; when
    the [try] block raises any other exception the handler logs it and
    returns false.  In both cases the state is left as it was. *)
Theorem handle_fallback_error_policy host message self d e :
  parse (normalized host message) = Ok (Some d) ->
  d <> ∅ ->
  outcome (ask host (build_query d) self) = Raise e ->
  state_after (handle_fallback host message self) = self /\
  match e with
  | HTTPError status_code =>
      outcome (handle_fallback host message self) = Ok true /\
      (In (Emit "mycroft.not.paired")
          (events (handle_fallback host message self)) <->
       status_code = 401%Z) /\
      (forall e', ~ In (LogException e')
                       (events (handle_fallback host message self)))
  | _ =>
      outcome (handle_fallback host message self) = Ok false /\
      In (LogException e) (events (handle_fallback host message self)) /\
      (forall m, ~ In (Emit m) (events (handle_fallback host message self)))
  end.
Proof.
  intros Hparse Hd Hask. rewrite handle_fallback_eq, Hparse.
  assert (Hq : truthy_dict (Some d) = true)
    by (apply truthy_dict_Some; eauto).
  rewrite Hq. cbv zeta. simpl default. rewrite Hask.
  assert (Hevs : forall ev, In ev (preamble message (build_query d) ++
                                   events (ask host (build_query d) self)) ->
                            (forall m, ev <> Emit m) /\
                            (forall e', ev <> LogException e')).
  { intros ev Hin. apply in_app_or in Hin as [Hin | Hin].
    - simpl in Hin. destruct Hin as [<- | [<- | []]]; split; discriminate.
    - destruct (ask_events host (build_query d) self) as [Hev | (ps & _ & Hev)];
        rewrite Hev in Hin; simpl in Hin.
      + destruct Hin.
      + destruct Hin as [<- | [<- | []]]; split; discriminate. }
  destruct e as [sc| | | |]; (split; [reflexivity|]); cbn [outcome events fst snd].
  - split; [reflexivity|]. split; [split|].
    + intros Hin. apply in_app_or in Hin as [Hin | Hin].
      * destruct (Hevs _ Hin) as [Hne _]. now destruct (Hne "mycroft.not.paired").
      * destruct (sc =? 401)%Z eqn:Hsc; [now apply Z.eqb_eq | destruct Hin].
    + intros ->. apply in_or_app. right. now left.
    + intros e' Hin. apply in_app_or in Hin as [Hin | Hin].
      * destruct (Hevs _ Hin) as [_ Hne]. now destruct (Hne e').
      * destruct (sc =? 401)%Z; simpl in Hin;
          [destruct Hin as [H|[]]; discriminate | destruct Hin].
  - split; [reflexivity|]. split; [apply in_or_app; right; now left|].
    intros m Hin. apply in_app_or in Hin as [Hin | [H|[]]]; [|discriminate].
    destruct (Hevs _ Hin) as [Hne _]. now destruct (Hne m).
  - split; [reflexivity|]. split; [apply in_or_app; right; now left|].
    intros m Hin. apply in_app_or in Hin as [Hin | [H|[]]]; [|discriminate].
    destruct (Hevs _ Hin) as [Hne _]. now destruct (Hne m).
  - split; [reflexivity|]. split; [apply in_or_app; right; now left|].
    intros m Hin. apply in_app_or in Hin as [Hin | [H|[]]]; [|discriminate].
    destruct (Hevs _ Hin) as [Hne _]. now destruct (Hne m).
  - split; [reflexivity|]. split; [apply in_or_app; right; now left|].
    intros m Hin. apply in_app_or in Hin as [Hin | [H|[]]]; [|discriminate].
    destruct (Hevs _ Hin) as [Hne _]. now destruct (Hne m).
Qed.

Lemma handle_fallback_error_policy_witness :
  let host := example_host (fun _ _ => Raise (HTTPError 401)) (fun _ => None) in
  let message := mkMessage "what is the moon" None in
  outcome (handle_fallback host message init) = Ok true /\
  In (Emit "mycroft.not.paired") (events (handle_fallback host message init)).
Proof.
  cbv zeta.
  pose proof (handle_fallback_error_policy
                (example_host (fun _ _ => Raise (HTTPError 401)) (fun _ => None))
                (mkMessage "what is the moon" None) init
                (list_to_map [("QuestionWord", Some "what");
                              ("QuestionVerb", Some "is");
                              ("Query", Some "the moon")])
                (HTTPError 401)) as H.
  destruct H as (_ & Hout & Hemit & _).
  - vm_compute. reflexivity.
  - intros Hd. apply (f_equal (fun m : dict => m !! "Query")) in Hd.
    vm_compute in Hd. discriminate.
  - vm_compute. reflexivity.
  - split; [exact Hout | now apply Hemit].
Defined.

(** C1, as stated, fails: an HTTP error with a status other than 401 is an
    exception other than the 401 one, and the handler neither logs it nor
    returns false. *)
Lemma handle_fallback_error_policy_counterexample :
  let host := example_host (fun _ _ => Raise (HTTPError 500)) (fun _ => None) in
  let message := mkMessage "what is the moon" None in
  outcome (ask host "what is the moon" init) = Raise (HTTPError 500) /\
  outcome (handle_fallback host message init) = Ok true /\
  events (handle_fallback host message init) =
    [LogDebug "WolframAlpha fallback attempt: what is the moon";
     LogDebug "Querying WolframAlpha: what is the moon";
     MouthThink;
     Query "what is the moon"
       [("assumption", "DateOrder_**Day.Month.Year--"); ("units", "metric")]] /\
  ~ In (LogException (HTTPError 500))
       (events (handle_fallback host message init)).
Proof.
  cbv zeta. split; [reflexivity | split; [reflexivity | split; [reflexivity|]]].
  vm_compute. intros H. repeat destruct H as [H|H]; try discriminate; destruct H.
Qed.

(** C2: where the code departs from it.  When the extraction yields no
    result, [None] or the empty string, the handler does not return false:
    evaluating [len(others)] raises [NameError], which leaves
    [handle_fallback]. *)
Theorem handle_fallback_no_result host message self d result :
  parse (normalized host message) = Ok (Some d) ->
  d <> ∅ ->
  outcome (ask host (build_query d) self) = Ok result ->
  truthy result = false ->
  outcome (handle_fallback host message self) = Raise (NameError "others") /\
  state_after (handle_fallback host message self) = self.
Proof.
  intros Hparse Hd Hask Hres. rewrite handle_fallback_eq, Hparse.
  assert (Hq : truthy_dict (Some d) = true)
    by (apply truthy_dict_Some; eauto).
  rewrite Hq. cbv zeta. simpl default. rewrite Hask, Hres. split; reflexivity.
Qed.

Lemma handle_fallback_no_result_witness :
  let host := example_host (fun _ _ => Ok (mkResponse [] [])) (fun _ => None) in
  let message := mkMessage "what is the moon" None in
  outcome (handle_fallback host message init) = Raise (NameError "others").
Proof.
  cbv zeta.
  refine (proj1 (handle_fallback_no_result
                   (example_host (fun _ _ => Ok (mkResponse [] [])) (fun _ => None))
                   (mkMessage "what is the moon" None) init
                   (list_to_map [("QuestionWord", Some "what");
                                 ("QuestionVerb", Some "is");
                                 ("Query", Some "the moon")])
                   None _ _ _ _)).
  - vm_compute. reflexivity.
  - intros Hd. apply (f_equal (fun m : dict => m !! "Query")) in Hd.
    vm_compute in Hd. discriminate.
  - vm_compute. reflexivity.
  - reflexivity.
Defined.

(** Whatever is recorded was recorded by one handling: that handling put
    the recorded query to the API and spoke the recorded answer. *)
Lemma reachable_origin self :
  reachable self ->
  (last_query self = None /\ last_answer self = None) \/
  (exists host message self0 q ps a,
      reachable self0 /\
      self = {| last_query := Some q; last_answer := Some a |} /\
      self = state_after (handle_fallback host message self0) /\
      In (Query q ps) (events (handle_fallback host message self0)) /\
      In (Speak a) (events (handle_fallback host message self0))).
Proof.
  induction 1 as [|self self' Hreach IH Hstep].
  - left. split; reflexivity.
  - destruct Hstep as [host message self | host self].
    + destruct (handle_fallback_cases host message self)
        as [[Hst _] | (d & ps & res & t & a & _ & _ & _ & _ & _ & _ & _ & Heq)].
      * rewrite Hst. exact IH.
      * right. exists host, message, self, (build_query d), ps, a.
        rewrite Heq. cbn [state_after events fst snd].
        repeat split; [exact Hreach | |]; apply in_or_app; right; simpl; tauto.
    + rewrite handle_get_sources_eq.
      destruct (truthy (last_query self)); exact IH.
Qed.

(** C8.  Both fields start as [None]; in every state the skill can reach
    an answer is recorded only if a query is, indeed both are recorded or
    neither, and a recorded pair comes from one handling, which put that
    query to the API and spoke that answer; a handling either leaves both
    fields as they were or returns true with both assigned from itself:
    the query is the one it built from the utterance and put to the API,
    the answer is the cleaned text of the response to it, which it spoke;
    so a handling that does not return true changes neither; and
    [handle_get_sources] changes neither. *)
Theorem query_record_invariant :
  (last_query init = None /\ last_answer init = None) /\
  (forall self,
      reachable self -> last_answer self <> None -> last_query self <> None) /\
  (forall host message self,
      state_after (handle_fallback host message self) = self \/
      (outcome (handle_fallback host message self) = Ok true /\
       exists d ps res t a,
         parse (normalized host message) = Ok (Some d) /\
         client_query host (build_query d) ps = Ok res /\
         get_result res = Some t /\
         process_wolfram_string host t = Ok a /\
         In (Query (build_query d) ps)
            (events (handle_fallback host message self)) /\
         In (Speak a) (events (handle_fallback host message self)) /\
         state_after (handle_fallback host message self) =
           {| last_query := Some (build_query d); last_answer := Some a |})) /\
  (forall host message self,
      outcome (handle_fallback host message self) <> Ok true ->
      state_after (handle_fallback host message self) = self) /\
  (forall host self, state_after (handle_get_sources host self) = self) /\
  (forall self,
      reachable self ->
      (last_query self = None <-> last_answer self = None) /\
      (forall q a,
          last_query self = Some q -> last_answer self = Some a ->
          exists host message self0 ps,
            reachable self0 /\
            self = state_after (handle_fallback host message self0) /\
            In (Query q ps) (events (handle_fallback host message self0)) /\
            In (Speak a) (events (handle_fallback host message self0)))).
Proof.
  split; [split; reflexivity|]. split; [|split; [|split; [|split]]].
  - intros self Hreach Hanswer.
    destruct (reachable_record self Hreach) as [[_ Ha] | (q & a & Hq & _ & _)];
      congruence.
  - intros host message self.
    destruct (handle_fallback_cases host message self)
      as [[Hst _] | (d & ps & res & t & a & Hparse & _ & _ & Hres & Ht & _ & Hp & Heq)].
    + now left.
    + right. rewrite Heq. split; [reflexivity|].
      exists d, ps, res, t, a. cbn [events state_after fst snd].
      repeat split; try assumption; apply in_or_app; right; simpl; tauto.
  - intros host message self Hout.
    destruct (handle_fallback_cases host message self)
      as [[Hst _] | (d & ps & res & t & a & _ & _ & _ & _ & _ & _ & _ & Heq)].
    + exact Hst.
    + rewrite Heq in Hout. now destruct Hout.
  - intros host self. rewrite handle_get_sources_eq.
    destruct (truthy (last_query self)); reflexivity.
  - intros self Hreach.
    destruct (reachable_origin self Hreach)
      as [[Hq Ha] | (host & message & self0 & q & ps & a & Hr0 & Hself & Hst & Hin1 & Hin2)].
    + split; [now split|]. intros q a Hq' _. congruence.
    + split.
      * rewrite Hself. simpl. split; discriminate.
      * intros q' a' Hq' Ha'. rewrite Hself in Hq', Ha'. simpl in Hq', Ha'.
        injection Hq' as <-. injection Ha' as <-.
        exists host, message, self0, ps. now repeat split.
Qed.

Lemma query_record_invariant_witness :
  let host :=
    example_host
      (fun _ _ => Ok (mkResponse [mkPod "Result" (Some "Earth's satellite") "200"] []))
      (fun _ => None) in
  let host' :=
    example_host
      (fun _ _ => Ok (mkResponse [mkPod "Result" (Some "8848 meters") "200"] []))
      (fun _ => None) in
  let self := state_after (handle_fallback host (mkMessage "what is the moon" None) init) in
  let self' :=
    state_after (handle_fallback host' (mkMessage "how tall is mount everest" None) self) in
  last_answer self = Some "Earth's satellite" /\
  self' = {| last_query := Some "how tall is mount everest";
             last_answer := Some "8848 meters" |} /\
  last_query self' <> None.
Proof.
  cbv zeta. split; [reflexivity | split; [reflexivity|]].
  refine (proj1 (proj2 query_record_invariant) _ _ _).
  - repeat match goal with
      | |- reachable (state_after (handle_fallback ?h ?m ?s)) =>
          apply (reachable_step s _); [|apply (step_fallback h m s)]
      end.
    apply reachable_init.
  - vm_compute. discriminate.
Defined.

Lemma replace_spaces s : Str.replace " " "+" s = spaces_to_plus s.
Proof.
  unfold Str.replace. induction s as [|c s IH]; [reflexivity|].
  cbn [Str.replace_from spaces_to_plus String.length]. rewrite prefix_space.
  destruct (Ascii.eqb c " "); now rewrite IH.
Qed.

(** On letters, digits, [_.-] and spaces, turning the spaces into [+] is
    URL encoding. *)
Lemma spaces_to_plus_quote_plus s :
  Str.all url_safe s = true -> spaces_to_plus s = quote_plus s.
Proof.
  induction s as [|c s IH]; [reflexivity|].
  cbn [Str.all spaces_to_plus quote_plus]. intros H.
  apply andb_true_iff in H as [Hc Hs]. rewrite (IH Hs).
  destruct (Ascii.eqb c " ") eqn:Hsp; [reflexivity|].
  unfold url_safe in Hc. rewrite Hsp, orb_false_r in Hc. now rewrite Hc.
Qed.

(** C9, as amended.  With a recorded query and answer,
    [handle_get_sources] sends one email, its subject and its body
    rendered from the data made of exactly the recorded query, the
    recorded answer and the query with every space turned into [+], which
    is the URL encoding of the query when it holds nothing but letters,
    digits, [_.-] and spaces, and then speaks the confirmation; with no
    answer recorded it does nothing; and the answer a handling records is
    the string it spoke, with the query it sent. *)
Theorem handle_get_sources_email host self :
  reachable self ->
  (forall q a,
      last_query self = Some q -> last_answer self = Some a ->
      let data : dict :=
        <["query" := Some q]>
        (<["answer" := Some a]>
        (<["url_query" := Some (spaces_to_plus q)]> ∅)) in
      handle_get_sources host self =
        (Ok tt, self,
         [SendEmail (render host "email.subject" data)
                    (render host "email.body" data);
          SpeakDialog "sent.email"]) /\
      (Str.all url_safe q = true -> spaces_to_plus q = quote_plus q)) /\
  (last_answer self = None ->
   handle_get_sources host self = (Ok tt, self, [])) /\
  (forall host' message a,
      In (Speak a) (events (handle_fallback host' message self)) ->
      last_answer (state_after (handle_fallback host' message self)) = Some a /\
      exists q ps,
        In (Query q ps) (events (handle_fallback host' message self)) /\
        last_query (state_after (handle_fallback host' message self)) = Some q).
Proof.
  intros Hreach. split; [|split].
  - intros q a Hq Ha. cbv zeta. split; [|apply spaces_to_plus_quote_plus].
    rewrite handle_get_sources_eq.
    destruct (reachable_record self Hreach)
      as [[Hq' _] | (q' & a' & Hq' & Ha' & Htrue)]; [congruence|].
    rewrite Hq' in *. rewrite Htrue. unfold source_data.
    rewrite Hq', Ha. injection Hq as <-. simpl pystr.
    now rewrite replace_spaces.
  - intros Ha. rewrite handle_get_sources_eq.
    destruct (reachable_record self Hreach)
      as [[Hq' _] | (q' & a' & _ & Ha' & _)]; [|congruence].
    now rewrite Hq'.
  - intros host' message a Hin.
    destruct (handle_fallback_cases host' message self)
      as [[_ Hno] | (d & ps & res & t & response & _ & _ & _ & _ & _ & _ & _ & Heq)].
    + now destruct (Hno a).
    + rewrite Heq in *. cbn [events state_after fst snd last_answer last_query] in *.
      apply in_app_or in Hin as [Hin | Hin]; simpl in Hin.
      * destruct Hin as [H | [H | []]]; discriminate.
      * destruct Hin as [H | [H | [H | []]]]; try discriminate.
        injection H as <-. split; [reflexivity|].
        exists (build_query d), ps. split; [|reflexivity].
        apply in_or_app. right. right. now left.
Qed.

Lemma handle_get_sources_email_witness :
  let host :=
    example_host
      (fun _ _ => Ok (mkResponse [mkPod "Result" (Some "Earth's satellite") "200"] []))
      (fun _ => None) in
  let self := state_after (handle_fallback host (mkMessage "what is the moon" None) init) in
  handle_get_sources host self =
    (Ok tt, self,
     [SendEmail "email.subject" "email.body"; SpeakDialog "sent.email"]) /\
  source_data self !! "url_query" = Some (Some "what+is+the+moon").
Proof.
  cbv zeta. split; [|reflexivity].
  refine (proj1 (proj1 (handle_get_sources_email _ _ _)
                   "what is the moon" "Earth's satellite" _ _)).
  - apply (reachable_step init); [constructor | constructor].
  - reflexivity.
  - reflexivity.
Defined.

(** C9, as stated, fails: the query that is sent with the email is not URL
    encoded, its spaces alone are turned into [+], and a [+] of the query
    stays as it is. *)
Lemma handle_get_sources_email_counterexample :
  let host :=
    example_host (fun _ _ => Ok (mkResponse [mkPod "Result" (Some "4") "200"] []))
                 (fun _ => None) in
  let self := state_after (handle_fallback host (mkMessage "what is 2 + 2" None) init) in
  reachable self /\
  last_query self = Some "what is 2 + 2" /\
  last_answer self = Some "4" /\
  source_data self !! "url_query" = Some (Some "what+is+2+++2") /\
  quote_plus "what is 2 + 2" = "what+is+2+%2B+2" /\
  source_data self !! "url_query" <> Some (Some (quote_plus "what is 2 + 2")).
Proof.
  cbv zeta. split; [|split; [|split; [|split; [|split]]]]; try reflexivity.
  - apply (reachable_step init); [constructor | constructor].
  - vm_compute. discriminate.
Qed.

Lemma build_params_eq host ps :
  build_params host = Ok ps ->
  exists latlong,
    ps = latlong ++
         [("assumption",
           if bool_decide (date_format host = Some "MDY")
           then "DateOrder_**Month.Day.Year--"
           else "DateOrder_**Day.Month.Year--");
          ("units",
           if bool_decide (system_unit host = Some "imperial")
           then "nonmetric" else "metric")] /\
    if bool_decide (settings host !! "forward_location" = Some "true")
    then exists c, location host = Some (Some c) /\
                   latlong = [("latlong", latitude c +:+ "," +:+ longitude c)]
    else latlong = [].
Proof.
  unfold build_params, mbind, result_bind.
  destruct (bool_decide (settings host !! "forward_location" = Some "true")).
  - destruct (location host) as [[c|]|]; [|discriminate|discriminate].
    intros [= <-]. exists [("latlong", latitude c +:+ "," +:+ longitude c)].
    split; [|eauto].
    destruct (bool_decide (date_format host = Some "MDY")),
      (bool_decide (system_unit host = Some "imperial")); reflexivity.
  - intros [= <-]. exists []. split; [|reflexivity].
    destruct (bool_decide (date_format host = Some "MDY")),
      (bool_decide (system_unit host = Some "imperial")); reflexivity.
Qed.

(** C10.  The assumptions of every query that reaches the API are: the
    latlong parameter, first, exactly when the setting forward_location is
    the string true; then one date-order assumption, Month.Day.Year when
    the configured date_format is MDY and Day.Month.Year otherwise; then
    one units parameter, nonmetric when the configured system_unit is
    imperial and metric otherwise. *)
Theorem query_assumptions host message self query ps :
  In (Query query ps) (events (handle_fallback host message self)) ->
  let forward :=
    bool_decide (settings host !! "forward_location" = Some "true") in
  let date :=
    if bool_decide (date_format host = Some "MDY")
    then "DateOrder_**Month.Day.Year--" else "DateOrder_**Day.Month.Year--" in
  let units :=
    if bool_decide (system_unit host = Some "imperial")
    then "nonmetric" else "metric" in
  (exists latlong,
      ps = latlong ++ [("assumption", date); ("units", units)] /\
      if forward
      then exists c, location host = Some (Some c) /\
                     latlong = [("latlong", latitude c +:+ "," +:+ longitude c)]
      else latlong = []) /\
  count_key "assumption" ps = 1 /\
  count_key "units" ps = 1 /\
  count_key "latlong" ps = (if forward then 1 else 0) /\
  (forward = true <-> exists v, head ps = Some ("latlong", v)).
Proof.
  intros Hin. cbv zeta. apply handle_fallback_query in Hin.
  destruct (build_params_eq host ps Hin) as (latlong & -> & Hll).
  split; [eauto|].
  destruct (bool_decide (settings host !! "forward_location" = Some "true")).
  - destruct Hll as (c & _ & ->).
    repeat split; try reflexivity; eauto.
  - rewrite Hll. repeat split; try reflexivity.
    + discriminate.
    + intros [v Hv]. simpl in Hv. discriminate.
Qed.

Lemma query_assumptions_witness :
  let host :=
    {| normalize := fun utt _ => utt;
       settings := {["forward_location" := "true"]};
       date_format := Some "MDY";
       system_unit := Some "imperial";
       location := Some (Some (mkCoordinate "38.97" "-95.26"));
       client_query := fun _ _ => Ok (mkResponse [] []);
       list_regex := fun _ => Ok None;
       render := fun template _ => template |} in
  exists latlong,
    [("latlong", "38.97,-95.26");
     ("assumption", "DateOrder_**Month.Day.Year--");
     ("units", "nonmetric")] =
    latlong ++ [("assumption", "DateOrder_**Month.Day.Year--");
                ("units", "nonmetric")] /\
    exists c, location host = Some (Some c) /\
              latlong = [("latlong", latitude c +:+ "," +:+ longitude c)].
Proof.
  cbv zeta.
  refine (proj1 (query_assumptions
                   {| normalize := fun utt _ => utt;
                      settings := {["forward_location" := "true"]};
                      date_format := Some "MDY";
                      system_unit := Some "imperial";
                      location := Some (Some (mkCoordinate "38.97" "-95.26"));
                      client_query := fun _ _ => Ok (mkResponse [] []);
                      list_regex := fun _ => Ok None;
                      render := fun template _ => template |}
                   (mkMessage "what is the moon" None) init
                   "what is the moon"
                   [("latlong", "38.97,-95.26");
                    ("assumption", "DateOrder_**Month.Day.Year--");
                    ("units", "nonmetric")] _)).
  vm_compute. right. right. right. left. reflexivity.
Defined.

End Handler.

(** * Part IV: further properties of the code *)

(** ** The question parser *)

Section ParserMore.
Import EnglishQuestionParser.

Ltac invert_matches :=
  repeat match goal with
    | H : Matches (Seq _ _) _ _ |- _ => inversion H; subst; clear H
    | H : Matches (Group _ _) _ _ |- _ => inversion H; subst; clear H
    | H : Matches (Lit _) _ _ |- _ => inversion H; subst; clear H
    | H : Matches (Star _) _ _ |- _ => inversion H; subst; clear H
    | H : Matches (Plus _) _ _ |- _ => inversion H; subst; clear H
    | H : Matches (Alt (Lit ?w) ?r) _ _ |- _ =>
        match r with
        | context [Lit "whose"] =>
            apply (any_of_spec "who"
                     ["what"; "when"; "where"; "why"; "which"; "whose"]) in H
              as [? ->]
        | context [Lit "how"] =>
            apply (any_of_spec "who"
                     ["what"; "when"; "where"; "why"; "which"; "how"]) in H
              as [? ->]
        end
    end.

(** What the second pattern denotes. *)
Lemma regex2_spec m g :
  Matches regex2 m g <->
  exists pre w v q,
    m = pre +:+ w +:+ " " +:+ v +:+ " " +:+ q /\
    g = [("QuestionWord", w); ("QuestionVerb", v); ("Query", q)] /\
    In w ["who"; "what"; "when"; "where"; "why"; "which"; "how"] /\
    v <> "" /\ Str.all (in_class Word) v = true /\
    one_line pre /\ one_line q.
Proof.
  unfold regex2, one_line. split.
  - intros HM. invert_matches.
    match goal with
    | |- exists _ _ _ _, ?p +:+ ?w +:+ _ +:+ ?v +:+ _ +:+ ?q = _ /\ _ =>
        exists p, w, v, q
    end.
    repeat split; assumption.
  - intros (pre & w & v & q & -> & -> & Hw & Hv & Hword & Hpre & Hq).
    apply (Matches_Seq _ _ pre _ [] _); [now constructor|].
    apply (Matches_Seq _ _ w _ [("QuestionWord", w)] _).
    { constructor. apply any_of_spec. now split. }
    apply (Matches_Seq _ _ " " _ [] _); [constructor|].
    apply (Matches_Seq _ _ v _ [("QuestionVerb", v)] _).
    { constructor. now constructor. }
    apply (Matches_Seq _ _ " " _ [] [("Query", q)]); [constructor|].
    constructor. now constructor.
Qed.

Lemma contains_intro a sub b : Str.contains sub (a +:+ sub +:+ b) = true.
Proof. apply StrFacts.contains_spec. eauto. Qed.

(** Without a question word neither pattern matches. *)
Lemma no_word_no_match utterance :
  (forall w, In w question_words -> Str.contains w utterance = false) ->
  re_match regex1 utterance = None /\ re_match regex2 utterance = None.
Proof.
  intros Hno. split.
  - destruct (re_match regex1 utterance) as [[[m rest] g]|] eqn:H1; [|reflexivity].
    apply re_match_Some in H1 as [Hs HM]. simpl in Hs, HM.
    apply regex1_spec in HM as (pre & w & q1 & v & q2 & -> & _ & Hw & _).
    assert (Hc : Str.contains w utterance = true).
    { rewrite Hs, !StrFacts.app_assoc. apply contains_intro. }
    rewrite Hno in Hc; [discriminate|].
    unfold question_words. simpl in Hw |- *. tauto.
  - destruct (re_match regex2 utterance) as [[[m rest] g]|] eqn:H2; [|reflexivity].
    apply re_match_Some in H2 as [Hs HM]. simpl in Hs, HM.
    apply regex2_spec in HM as (pre & w & v & q & -> & _ & Hw & _).
    assert (Hc : Str.contains w utterance = true).
    { rewrite Hs, !StrFacts.app_assoc. apply contains_intro. }
    rewrite Hno in Hc; [discriminate|].
    unfold question_words. simpl in Hw |- *. tauto.
Qed.

Lemma parsed_query w v q :
  build_query (parsed w v q) = w +:+ " " +:+ v +:+ " " +:+ q.
Proof. reflexivity. Qed.

Lemma parsed_true w v q : truthy_dict (Some (parsed w v q)) = true.
Proof.
  apply truthy_dict_Some. exists (parsed w v q). split; [reflexivity|].
  intros H. apply (f_equal (fun m : dict => m !! "Query")) in H.
  unfold parsed in H. rewrite lookup_insert_ne, lookup_insert_ne, lookup_insert_eq in H
    by discriminate.
  discriminate.
Qed.

(** What [parse] returns, pattern by pattern. *)
Lemma parse_cases utterance :
  (re_match regex1 utterance = None /\ re_match regex2 utterance = None /\
   parse utterance = Ok None) \/
  (exists pre w q1 v q2 rest,
      first_pattern utterance pre w q1 v q2 rest /\
      parse utterance = Ok (Some (parsed w v (q1 +:+ " " +:+ q2)))) \/
  (re_match regex1 utterance = None /\
   exists pre w v q rest,
     second_pattern utterance pre w v q rest /\
     parse utterance = Ok (Some (parsed w v q))).
Proof.
  unfold parse, regexes, parse_with.
  destruct (re_match regex1 utterance) as [[[m rest] g]|] eqn:H1.
  - right; left. apply re_match_Some in H1 as [Hs HM]. simpl in Hs, HM.
    apply regex1_spec in HM
      as (pre & w & q1 & v & q2 & -> & -> & Hw & Hv & Hpre & Hq1 & Hq2).
    exists pre, w, q1, v, q2, rest. split; [|apply _normalize_groups1].
    split; [|now repeat split]. rewrite Hs. now rewrite !StrFacts.app_assoc.
  - destruct (re_match regex2 utterance) as [[[m rest] g]|] eqn:H2.
    + right; right. split; [reflexivity|].
      apply re_match_Some in H2 as [Hs HM]. simpl in Hs, HM.
      apply regex2_spec in HM
        as (pre & w & v & q & -> & -> & Hw & Hv & Hword & Hpre & Hq).
      exists pre, w, v, q, rest. split; [|reflexivity].
      split; [|now repeat split]. rewrite Hs. now rewrite !StrFacts.app_assoc.
    + left. now repeat split.
Qed.

(** The first success of a concatenation: the first way of matching the
    left pattern after which the right pattern matches. *)
Lemma re_match_Seq r1 r2 s m rest g :
  re_match (Seq r1 r2) s = Some (m, rest, g) ->
  exists m1 s1 g1 m2 g2,
    In (m1, s1, g1) (run r1 s) /\
    re_match r2 s1 = Some (m2, rest, g2) /\
    m = m1 +:+ m2 /\ g = g1 ++ g2.
Proof.
  unfold re_match. cbn [run]. induction (run r1 s) as [|[[m1 s1] g1] l IH].
  - discriminate.
  - cbn [flat_map]. destruct (run r2 s1) as [|[[m2 s2] g2] l2] eqn:H2.
    + intros H. destruct (IH H) as (a & b & c & d & e & Hin & Hrest).
      exists a, b, c, d, e. split; [now right | exact Hrest].
    + cbn. intros [= <- <- <-]. exists m1, s1, g1, m2, g2.
      split; [now left|]. rewrite H2. repeat split.
Qed.

Lemma re_match_Group_Star name k s m rest g :
  re_match (Group name (Star k)) s = Some (m, rest, g) ->
  rest = drop_while k s.
Proof.
  unfold re_match. cbn [run]. pose proof (star_head k s) as Hh.
  destruct (star k s) as [|[m' r'] l]; [discriminate|].
  cbn in *. injection Hh as -> ->. now intros [= _ <- _].
Qed.

Lemma not_Dot c : in_class Dot c = false -> c = Str.LF.
Proof.
  unfold in_class. intros H. apply negb_false_iff, Nat.eqb_eq in H.
  unfold Str.LF. rewrite <- H. symmetry. apply ascii_nat_embedding.
Qed.

Lemma drop_while_Dot s : at_line_end (drop_while Dot s).
Proof.
  induction s as [|c s IH]; cbn [drop_while]; [now left|].
  destruct (in_class Dot c) eqn:Hc; [exact IH|].
  right. exists s. now rewrite (not_Dot c Hc).
Qed.

Lemma one_line_app a b : one_line (a +:+ b) -> one_line a /\ one_line b.
Proof.
  unfold one_line. rewrite all_app. apply andb_true_iff.
Qed.

Lemma one_line_at_end s : one_line s -> at_line_end s -> s = "".
Proof.
  intros H [-> | [s' ->]]; [reflexivity|]. discriminate H.
Qed.

Lemma last_group_to_line_end r name s m rest g :
  re_match (r ·· Lit " " ·· Group name (Star Dot)) s = Some (m, rest, g) ->
  at_line_end rest.
Proof.
  intros H.
  apply re_match_Seq in H as (? & s1 & ? & ? & ? & _ & H & _).
  apply re_match_Seq in H as (? & s2 & ? & ? & ? & _ & H & _).
  apply re_match_Group_Star in H as ->. apply drop_while_Dot.
Qed.

(** A match of either pattern ends where its line ends. *)
Lemma pattern_to_line_end utterance m rest g :
  re_match regex1 utterance = Some (m, rest, g) \/
  re_match regex2 utterance = Some (m, rest, g) ->
  at_line_end rest.
Proof.
  intros [H | H].
  - unfold regex1 in H.
    do 5 (apply re_match_Seq in H as (? & ? & ? & ? & ? & _ & H & _)).
    now apply last_group_to_line_end in H.
  - unfold regex2 in H.
    do 3 (apply re_match_Seq in H as (? & ? & ? & ? & ? & _ & H & _)).
    now apply last_group_to_line_end in H.
Qed.

(** X1.  [parse] raises nothing: it returns [None], or a dict with the
    three entries QuestionWord, QuestionVerb and Query, each a string, the
    word one of the question words and the verb not empty; the query built
    from such a dict is the three strings with single spaces between. *)
Theorem parse_result utterance :
  parse utterance = Ok None \/
  exists w v q,
    parse utterance = Ok (Some (parsed w v q)) /\
    In w question_words /\ v <> "" /\
    build_query (parsed w v q) = w +:+ " " +:+ v +:+ " " +:+ q.
Proof.
  destruct (parse_cases utterance)
    as [(_ & _ & H) | [(pre & w & q1 & v & q2 & rest & Hshape & H) |
                       (_ & pre & w & v & q & rest & Hshape & H)]].
  - now left.
  - right. exists w, v, (q1 +:+ " " +:+ q2).
    destruct Hshape as (_ & Hw & Hv & _).
    repeat split; [exact H | | ].
    + unfold question_words. simpl in Hw |- *. tauto.
    + simpl in Hv. destruct Hv as [<- | [<- | [<- | [<- | []]]]]; discriminate.
  - right. exists w, v, q. destruct Hshape as (_ & Hw & Hv & _).
    repeat split; [exact H | | exact Hv].
    unfold question_words. simpl in Hw |- *. tauto.
Qed.

(** X2.  An utterance in which none of who, what, when, where, why,
    which, whose and how occurs is no question: [parse] returns [None]. *)
Theorem parse_without_question_word utterance :
  (forall w, In w question_words -> Str.contains w utterance = false) ->
  parse utterance = Ok None.
Proof.
  intros Hno. destruct (no_word_no_match utterance Hno) as [H1 H2].
  unfold parse, regexes, parse_with. now rewrite H1, H2.
Qed.

Lemma parse_without_question_word_witness :
  parse "turn on the kitchen light" = Ok None.
Proof.
  apply parse_without_question_word.
  intros w Hw. unfold question_words in Hw. simpl in Hw.
  repeat destruct Hw as [<- | Hw]; try reflexivity. destruct Hw.
Defined.

(** X3.  When the first pattern does not match and the second does,
    [parse] returns the groups of the second: the question word, among
    who, what, when, where, why, which and how, the verb, a non-empty run
    of word characters, and as query what follows the verb on the line. *)
Theorem parse_second_pattern utterance :
  re_match regex1 utterance = None ->
  (exists m, re_match regex2 utterance = Some m) ->
  exists pre w v q rest,
    second_pattern utterance pre w v q rest /\
    at_line_end rest /\
    re_match regex2 utterance =
      Some (pre +:+ w +:+ " " +:+ v +:+ " " +:+ q, rest,
            [("QuestionWord", w); ("QuestionVerb", v); ("Query", q)]) /\
    parse utterance = Ok (Some (parsed w v q)).
Proof.
  intros H1 [[[m rest] g] H2].
  pose proof (pattern_to_line_end utterance m rest g (or_intror H2)) as Hend.
  pose proof (re_match_Some _ _ _ H2) as [Hs HM]. simpl in Hs, HM.
  apply regex2_spec in HM
    as (pre & w & v & q & -> & -> & Hw & Hv & Hword & Hpre & Hq).
  exists pre, w, v, q, rest. split; [|split; [exact Hend | split; [exact H2|]]].
  - split; [|now repeat split]. rewrite Hs. now rewrite !StrFacts.app_assoc.
  - unfold parse, regexes, parse_with. rewrite H1, H2. reflexivity.
Qed.

Lemma parse_second_pattern_witness :
  exists pre w v q rest,
    second_pattern "how do crickets chirp" pre w v q rest /\
    at_line_end rest /\
    re_match regex2 "how do crickets chirp" =
      Some (pre +:+ w +:+ " " +:+ v +:+ " " +:+ q, rest,
            [("QuestionWord", w); ("QuestionVerb", v); ("Query", q)]) /\
    parse "how do crickets chirp" = Ok (Some (parsed w v q)).
Proof.
  apply (parse_second_pattern "how do crickets chirp").
  - vm_compute. reflexivity.
  - eexists. vm_compute. reflexivity.
Defined.

(** X4.  A match of the first pattern ends where its line ends: the
    predicate runs to the end of the line, and on an utterance of one line
    the match is the whole utterance. *)
Theorem first_pattern_to_line_end utterance m rest g :
  re_match regex1 utterance = Some (m, rest, g) ->
  at_line_end rest /\
  (one_line utterance -> rest = "" /\ m = utterance).
Proof.
  intros H.
  pose proof (pattern_to_line_end utterance m rest g (or_introl H)) as Hend.
  split; [exact Hend|]. intros Hone.
  apply re_match_Some in H as [Hs _]. simpl in Hs.
  rewrite Hs in Hone. apply one_line_app in Hone as [_ Hrest].
  rewrite (one_line_at_end rest Hrest Hend) in *.
  split; [reflexivity|]. now rewrite Hs, StrFacts.app_nil_r.
Qed.

Lemma first_pattern_to_line_end_witness :
  at_line_end (String Str.LF "and the smallest").
Proof.
  refine (proj1 (first_pattern_to_line_end
                   ("what planet is the largest" +:+
                    String Str.LF "and the smallest")
                   "what planet is the largest"
                   (String Str.LF "and the smallest")
                   [("QuestionWord", "what"); ("Query1", "planet");
                    ("QuestionVerb", "is"); ("Query2", "the largest")] _)).
  vm_compute. reflexivity.
Defined.

(** The matches of [k*] followed by a pattern, at a character of [k]:
    those that take the character first, then those of the pattern alone. *)
Lemma run_Star_Seq_cons k r c s :
  in_class k c = true ->
  run (Star k ·· r) (String c s) =
  map (fun x : matching => let '(m, rest, g) := x in (String c m, rest, g))
      (run (Star k ·· r) s) ++
  run r (String c s).
Proof.
  intros Hc. cbn [run star]. rewrite Hc, map_app, flat_map_app. f_equal.
  - induction (star k s) as [|[p s1] l IH]; [reflexivity|].
    cbn [map flat_map fst snd]. rewrite map_app, IH. f_equal.
    rewrite map_map. apply map_ext. now intros [[m2 s2] g2].
  - cbn. rewrite app_nil_r.
    rewrite <- (map_id (run r (String c s))) at 2.
    apply map_ext. now intros [[m2 s2] g2].
Qed.

Lemma run_Star_Seq_stop k r s :
  match s with
  | "" => True
  | String c _ => in_class k c = false
  end ->
  run (Star k ·· r) s = run r s.
Proof.
  intros H. assert (Hs : star k s = [("", s)]).
  { destruct s as [|c s]; [reflexivity|]. cbn [star]. now rewrite H. }
  cbn [run]. rewrite Hs. cbn. rewrite app_nil_r.
  rewrite <- (map_id (run r s)) at 2.
  apply map_ext. now intros [[m2 s2] g2].
Qed.

(** The first success of [k*] followed by a pattern takes the longest
    run of [k] after which the pattern matches. *)
Lemma re_match_Star_Seq k r s m rest g :
  re_match (Star k ·· r) s = Some (m, rest, g) ->
  exists p s1 m2,
    s = p +:+ s1 /\ Str.all (in_class k) p = true /\
    re_match r s1 = Some (m2, rest, g) /\ m = p +:+ m2 /\
    forall p' s1',
      s = p' +:+ s1' -> Str.all (in_class k) p' = true ->
      String.length p < String.length p' -> run r s1' = [].
Proof.
  revert m; induction s as [|c s IH]; intros m.
  - unfold re_match at 1. rewrite (run_Star_Seq_stop k r ""); [|exact I].
    intros H. exists "", "", m. repeat split; try assumption.
    intros p' s1' Hs _ Hlen. destruct p'; [simpl in Hlen; lia | discriminate].
  - destruct (in_class k c) eqn:Hc.
    + unfold re_match at 1. rewrite (run_Star_Seq_cons k r c s Hc).
      destruct (run (Star k ·· r) s) as [|[[m0 rest0] g0] l] eqn:Hrun.
      * cbn [map app]. intros H. exists "", (String c s), m.
        repeat split; try assumption.
        intros p' s1' Hs Hall Hlen.
        destruct p' as [|d p']; [simpl in Hlen; lia|].
        simpl in Hs. injection Hs as <- ->. simpl in Hall. rewrite Hc in Hall.
        destruct (run r s1') as [|[[m2 s2] g2] l2] eqn:Hr; [reflexivity|].
        assert (Hin : In (p' +:+ m2, s2, [] ++ g2) (run (Star k ·· r) (p' +:+ s1'))).
        { apply run_spec.
          assert (Hin2 : In (m2, s2, g2) (run r s1')) by (rewrite Hr; now left).
          apply run_spec in Hin2 as [-> HM]. split.
          - now rewrite StrFacts.app_assoc.
          - constructor; [now constructor | exact HM]. }
        rewrite Hrun in Hin. destruct Hin.
      * cbn [map app head]. intros [= <- <- <-].
        destruct (IH m0) as (p & s1 & m2 & -> & Hall & Hm & -> & Hmax).
        { unfold re_match. now rewrite Hrun. }
        exists (String c p), s1, m2. cbn [Str.all]. rewrite Hc, Hall.
        repeat split; try assumption.
        intros p' s1' Hs Hall' Hlen.
        destruct p' as [|d p']; [simpl in Hlen; lia|].
        simpl in Hs. injection Hs as <- Hs. simpl in Hall'. rewrite Hc in Hall'.
        apply (Hmax p' s1' Hs Hall'). simpl in Hlen. lia.
    + unfold re_match at 1.
      rewrite (run_Star_Seq_stop k r (String c s)); [|exact Hc].
      intros H. exists "", (String c s), m. repeat split; try assumption.
      intros p' s1' Hs Hall Hlen.
      destruct p' as [|d p']; [simpl in Hlen; lia|].
      simpl in Hs. injection Hs as <- ->. simpl in Hall. rewrite Hc in Hall.
      discriminate.
Qed.

Lemma app_inv_tail_length a b t u :
  a +:+ t = b +:+ u -> String.length t = String.length u -> a = b.
Proof.
  revert b; induction a as [|c a IH]; intros [|d b] H Hlen; simpl in H.
  - reflexivity.
  - apply (f_equal String.length) in H. simpl in H.
    rewrite StrFacts.length_app in H. lia.
  - apply (f_equal String.length) in H. simpl in H.
    rewrite StrFacts.length_app in H. lia.
  - injection H as -> H. f_equal. now apply IH.
Qed.

Lemma regex1_tail_spec m g :
  Matches regex1_tail m g <->
  exists w q1 v q2,
    m = w +:+ " " +:+ q1 +:+ " " +:+ v +:+ " " +:+ q2 /\
    g = [("QuestionWord", w); ("Query1", q1); ("QuestionVerb", v); ("Query2", q2)] /\
    In w ["who"; "what"; "when"; "where"; "why"; "which"; "whose"] /\
    In v ["is"; "are"; "was"; "were"] /\
    one_line q1 /\ one_line q2.
Proof.
  unfold regex1_tail, one_line. split.
  - intros HM. invert_matches.
    match goal with H : Matches (Alt (Lit "is") _) _ _ |- _ =>
      apply (any_of_spec "is" ["are"; "was"; "were"]) in H as [? ->]
    end.
    match goal with
    | |- exists _ _ _ _, ?w +:+ _ +:+ ?q1 +:+ _ +:+ ?v +:+ _ +:+ ?q2 = _ /\ _ =>
        exists w, q1, v, q2
    end.
    repeat split; assumption.
  - intros (w & q1 & v & q2 & -> & -> & Hw & Hv & Hq1 & Hq2).
    apply (Matches_Seq _ _ w _ [("QuestionWord", w)] _).
    { constructor. apply any_of_spec. now split. }
    apply (Matches_Seq _ _ " " _ [] _); [constructor|].
    apply (Matches_Seq _ _ q1 _ [("Query1", q1)] _).
    { constructor. now constructor. }
    apply (Matches_Seq _ _ " " _ [] _); [constructor|].
    apply (Matches_Seq _ _ v _ [("QuestionVerb", v)] _).
    { constructor. apply any_of_spec. now split. }
    apply (Matches_Seq _ _ " " _ [] [("Query2", q2)]); [constructor|].
    constructor. now constructor.
Qed.

(** X5.  The first pattern binds the question word as far to the right
    as it can: among all the ways of reading the utterance in the shape of
    the pattern, the match has the longest prefix. *)
Theorem first_pattern_last_word utterance pre w q1 v q2 rest :
  re_match regex1 utterance =
    Some (pre +:+ w +:+ " " +:+ q1 +:+ " " +:+ v +:+ " " +:+ q2, rest,
          [("QuestionWord", w); ("Query1", q1);
           ("QuestionVerb", v); ("Query2", q2)]) ->
  forall pre' w' q1' v' q2' rest',
    first_pattern utterance pre' w' q1' v' q2' rest' ->
    String.length pre' <= String.length pre.
Proof.
  intros H pre' w' q1' v' q2' rest' Hshape.
  change regex1 with (Star Dot ·· regex1_tail)%re in H.
  apply re_match_Star_Seq in H as (p & s1 & m2 & Hs & Hall & Hm & Heq & Hmax).
  assert (Hp : p = pre).
  { apply re_match_Some in Hm as [_ HM]. simpl in HM.
    apply regex1_tail_spec in HM as (w0 & q10 & v0 & q20 & -> & Hg & _).
    injection Hg as <- <- <- <-. symmetry.
    now apply (app_inv_tail_length _ _ _ _ Heq). }
  subst p.
  destruct (Nat.le_gt_cases (String.length pre') (String.length pre)) as [Hle | Hgt];
    [exact Hle | exfalso].
  destruct Hshape as (Hutt & Hw & Hv & Hpre & Hq1 & Hq2).
  specialize (Hmax pre' (w' +:+ " " +:+ q1' +:+ " " +:+ v' +:+ " " +:+ q2' +:+ rest')).
  specialize (Hmax Hutt Hpre Hgt).
  assert (Hin : In (w' +:+ " " +:+ q1' +:+ " " +:+ v' +:+ " " +:+ q2', rest',
                    [("QuestionWord", w'); ("Query1", q1');
                     ("QuestionVerb", v'); ("Query2", q2')])
                   (run regex1_tail
                        (w' +:+ " " +:+ q1' +:+ " " +:+ v' +:+ " " +:+ q2' +:+ rest'))).
  { apply run_spec. split; [now rewrite !StrFacts.app_assoc|].
    apply regex1_tail_spec. exists w', q1', v', q2'. now repeat split. }
  rewrite Hmax in Hin. destruct Hin.
Qed.

Lemma first_pattern_last_word_witness :
  String.length "" <= String.length "what is ".
Proof.
  apply (first_pattern_last_word "what is what he was doing"
           "what is " "what" "he" "was" "doing" ""
           ltac:(vm_compute; reflexivity)
           "" "what" "is what he" "was" "doing" "").
  repeat split; simpl; tauto.
Defined.

End ParserMore.

(** ** Missing groups, extraction and cleaning *)

Section ExtractionMore.
Import EnglishQuestionParser.

(** X6.  [_normalize] tests the key Query2 alone: a dict without Query
    that has Query2 but no string under Query1 makes the join raise
    [TypeError], and a dict without Query and without Query2 gives [None]
    whatever it holds under Query1. *)
Theorem _normalize_missing_key (gd : dict) :
  gd !! "Query" = None ->
  (is_Some (gd !! "Query2") -> get gd "Query1" = None ->
   _normalize gd = Raise TypeError) /\
  (gd !! "Query2" = None -> _normalize gd = Ok None).
Proof.
  intros HQ. unfold _normalize. rewrite HQ. split.
  - intros H2 H1. rewrite bool_decide_eq_false_2 by (intros [? ?]; discriminate).
    rewrite bool_decide_eq_true_2 by exact H2. now rewrite H1.
  - intros H2. rewrite H2.
    rewrite !bool_decide_eq_false_2 by (intros [? ?]; discriminate). reflexivity.
Qed.

Lemma _normalize_missing_key_witness :
  _normalize (<["Query2" := Some "founded"]> ∅) = Raise TypeError /\
  _normalize (<["Query1" := Some "america"]> ∅) = Ok None.
Proof.
  split.
  - refine (proj1 (_normalize_missing_key (<["Query2" := Some "founded"]> ∅) _) _ _).
    + reflexivity.
    + eexists. reflexivity.
    + reflexivity.
  - refine (proj2 (_normalize_missing_key (<["Query1" := Some "america"]> ∅) _) _);
      reflexivity.
Defined.

Lemma find_pod_id_In pods pid t :
  find_pod_id pods pid = Some t -> exists pod, In pod pods /\ text pod = Some t.
Proof.
  induction pods as [|pod pods IH]; simpl; [discriminate|].
  destruct (Str.contains pid (id pod)).
  - intros H. exists pod. split; [now left | exact H].
  - intros H. destruct (IH H) as (p & Hp & Ht). exists p. split; [now right | exact Ht].
Qed.

Lemma find_num_In pods num t :
  find_num pods num = Some t -> exists pod, In pod pods /\ text pod = Some t.
Proof.
  induction pods as [|pod pods IH]; simpl; [discriminate|].
  destruct (String.eqb (position pod) num).
  - intros H. exists pod. split; [now left | exact H].
  - intros H. destruct (IH H) as (p & Hp & Ht). exists p. split; [now right | exact Ht].
Qed.

Lemma pid_loop_In pods pids result r :
  pid_loop pods pids result = Some r ->
  result = Some r \/
  exists pod t, In pod pods /\ text pod = Some t /\
                (r = t \/ r = Str.slice_to 5 t).
Proof.
  revert result; induction pids as [|pid pids IH]; intros result; simpl.
  - now left.
  - destruct (find_pod_id pods pid) as [t|] eqn:Hfind.
    + destruct (truthy (Some t)).
      * simpl. intros [= <-]. right.
        destruct (find_pod_id_In _ _ _ Hfind) as (pod & Hin & Ht).
        exists pod, t. eauto.
      * intros H. destruct (IH _ H) as [[= ->] | Hr]; [|now right].
        right. destruct (find_pod_id_In _ _ _ Hfind) as (pod & Hin & Ht).
        exists pod, r. eauto.
    + simpl. intros H. destruct (IH _ H) as [[=] | Hr]. now right.
Qed.

(** X7.  [get_result] makes up no text: what it returns is the whole text
    of the first primary result, or, when there is no primary result, the
    text of a pod of the response, whole or cut to its first 5 characters. *)
Theorem get_result_from_response res r :
  get_result res = Some r ->
  (exists first rest, results res = first :: rest /\ text first = Some r) \/
  (results res = [] /\
   exists pod t, In pod (pods res) /\ text pod = Some t /\
                 (r = t \/ r = Str.slice_to 5 t)).
Proof.
  unfold get_result. destruct (results res) as [|first rest].
  - intros H. right. split; [reflexivity|].
    destruct (truthy (pid_loop (pods res) PIDS None)); cbn [negb] in H.
    + destruct (pid_loop_In (pods res) PIDS None r H) as [[=] | Hr]. exact Hr.
    + destruct (find_num_In _ _ _ H) as (pod & Hin & Ht). exists pod, r. eauto.
  - intros H. left. eauto.
Qed.

Lemma get_result_from_response_witness :
  (exists first rest,
      results (mkResponse [] [mkPod "Definition:WordData" (Some "a domesticated mammal") "200"])
      = first :: rest /\ text first = Some "a dom") \/
  (results (mkResponse [] [mkPod "Definition:WordData" (Some "a domesticated mammal") "200"])
   = [] /\
   exists pod t,
     In pod (pods (mkResponse [] [mkPod "Definition:WordData" (Some "a domesticated mammal") "200"])) /\
     text pod = Some t /\ ("a dom" = t \/ "a dom" = Str.slice_to 5 t)).
Proof.
  apply (get_result_from_response
           (mkResponse [] [mkPod "Definition:WordData" (Some "a domesticated mammal") "200"])
           "a dom").
  reflexivity.
Defined.

Lemma prefix_char c d s : String.prefix (String c "") (String d s) = Ascii.eqb d c.
Proof.
  unfold String.prefix. destruct (ascii_dec c d) as [<-|Hne].
  - rewrite Ascii.eqb_refl. now destruct s.
  - symmetry. apply Ascii.eqb_neq. congruence.
Qed.

(** Replacing a character by a text without it leaves none of it. *)
Lemma re_sub_char_gone c repl s :
  Str.all (fun d => negb (Ascii.eqb d c)) repl = true ->
  Str.all (fun d => negb (Ascii.eqb d c)) (re_sub (Lit (String c "")) repl s) = true.
Proof.
  intros Hrepl. unfold re_sub. induction s as [|d s IH]; [reflexivity|].
  rewrite sub_from_0, re_match_Lit, prefix_char.
  destruct (Ascii.eqb d c) eqn:Hd.
  - cbn [String.length]. rewrite all_app, Hrepl. exact IH.
  - cbn [Str.all]. rewrite Hd. exact IH.
Qed.

(** X8.  After the four substitutions the text has no line feed and no
    exclamation mark, whatever it was. *)
Theorem substitutions_no_line_feed_no_bang text :
  Str.all (fun c => negb (Ascii.eqb c Str.LF)) (substitutions text) = true /\
  Str.all (fun c => negb (Ascii.eqb c "!")) (substitutions text) = true.
Proof.
  unfold substitutions. split.
  - apply sub_from_all; [reflexivity|].
    apply (re_sub_char_gone Str.LF ", "). reflexivity.
  - apply (re_sub_char_gone "!" ",factorial"). reflexivity.
Qed.

Lemma keep_drop_while s :
  keep (fun c => negb (in_class Space c)) (drop_while Space s) =
  keep (fun c => negb (in_class Space c)) s.
Proof.
  induction s as [|c s IH]; [reflexivity|]. cbn [drop_while keep].
  destruct (in_class Space c) eqn:Hc; cbn [negb]; [exact IH|].
  cbn [keep]. now rewrite Hc.
Qed.

(** X9.  The first substitution removes white space and nothing else: the
    characters that are not white space are kept, in their order, the text
    gets no longer, and no space of the result is followed by white space. *)
Theorem remove_extra_whitespace s :
  keep (fun c => negb (in_class Space c)) (re_sub (Lit " " ·· Plus Space) " " s) =
  keep (fun c => negb (in_class Space c)) s /\
  String.length (re_sub (Lit " " ·· Plus Space) " " s) <= String.length s /\
  collapsed (re_sub (Lit " " ·· Plus Space) " " s) = true.
Proof.
  fold spaces. split; [|split; [|apply re_sub_spaces_collapsed]].
  - remember (String.length s) as n eqn:Hn.
    revert s Hn; induction n as [n IH] using lt_wf_ind; intros s Hn.
    destruct s as [|c s]; [reflexivity|]. rewrite re_sub_spaces_unfold.
    destruct (Ascii.eqb c " " && starts_with_space s) eqn:H.
    + apply andb_true_iff in H as [Hc _]. apply Ascii.eqb_eq in Hc as ->.
      cbn [keep]. change (in_class Space " ") with true. cbn [negb].
      rewrite (IH (String.length (drop_while Space s))); [|  | reflexivity].
      * apply keep_drop_while.
      * pose proof (drop_while_length Space s). simpl in Hn. lia.
    + cbn [keep]. rewrite (IH (String.length s)); [reflexivity | | reflexivity].
      simpl in Hn. lia.
  - remember (String.length s) as n eqn:Hn.
    revert s Hn; induction n as [n IH] using lt_wf_ind; intros s Hn.
    destruct s as [|c s]; [simpl; lia|]. rewrite re_sub_spaces_unfold.
    destruct (Ascii.eqb c " " && starts_with_space s).
    + pose proof (drop_while_length Space s) as Hd.
      assert (Hlt : String.length (drop_while Space s) < n) by (simpl in Hn; lia).
      specialize (IH _ Hlt (drop_while Space s) eq_refl). simpl in *. lia.
    + assert (Hlt : String.length s < n) by (simpl in Hn; lia).
      specialize (IH _ Hlt s eq_refl). simpl in *. lia.
Qed.

End ExtractionMore.

(** ** The handlers *)

Section HandlerMore.
Import EnglishQuestionParser.

(** X10.  An utterance that, once normalised, holds none of the question
    words is declined: the handler returns false, leaves the record as it
    was, and writes its two debug lines; it neither shows the thinking cue
    nor calls the API. *)
Theorem handle_fallback_declines host message self :
  (forall w, In w question_words ->
             Str.contains w (normalized host message) = false) ->
  handle_fallback host message self =
    (Ok false, self,
     [LogDebug ("WolframAlpha fallback attempt: " +:+ utterance message);
      LogDebug ("Non-question, ignoring: " +:+ normalized host message)]).
Proof.
  intros Hno. rewrite handle_fallback_eq.
  destruct (no_word_no_match _ Hno) as [H1 H2].
  unfold parse, regexes, parse_with. rewrite H1, H2. reflexivity.
Qed.

Lemma handle_fallback_declines_witness :
  handle_fallback (example_host (fun _ _ => Raise (OtherError "unreachable"))
                                (fun _ => None))
                  (mkMessage "turn on the kitchen light" None) init =
    (Ok false, init,
     [LogDebug "WolframAlpha fallback attempt: turn on the kitchen light";
      LogDebug "Non-question, ignoring: turn on the kitchen light"]).
Proof.
  apply (handle_fallback_declines
           (example_host (fun _ _ => Raise (OtherError "unreachable")) (fun _ => None))
           (mkMessage "turn on the kitchen light" None) init).
  intros w Hw. unfold question_words in Hw. simpl in Hw.
  repeat destruct Hw as [<- | Hw]; try reflexivity. destruct Hw.
Defined.

(** X11.  A question for which the API returns a response with a
    non-empty extracted text: when cleaning the text succeeds the handler
    returns true; it shows the thinking cue, puts the query once, speaks
    the cleaned text once, last, and records the query with the cleaned
    text, whatever was recorded.  When cleaning raises, reading the list
    pattern being outside the [try] block, the exception leaves the
    handler after the query, and nothing is spoken or recorded. *)
Theorem handle_fallback_answers host message self d ps res t :
  parse (normalized host message) = Ok (Some d) ->
  d <> ∅ ->
  build_params host = Ok ps ->
  client_query host (build_query d) ps = Ok res ->
  get_result res = Some t ->
  t <> "" ->
  handle_fallback host message self =
    match process_wolfram_string host t with
    | Ok response =>
        (Ok true,
         {| last_query := Some (build_query d); last_answer := Some response |},
         preamble message (build_query d) ++
         [MouthThink; Query (build_query d) ps; Speak response])
    | Raise e =>
        (Raise e, self,
         preamble message (build_query d) ++
         [MouthThink; Query (build_query d) ps])
    end.
Proof.
  intros Hparse Hd Hps Hres Ht Hne. rewrite handle_fallback_eq, Hparse.
  assert (Hq : truthy_dict (Some d) = true) by (apply truthy_dict_Some; eauto).
  rewrite Hq. cbv zeta. simpl default. rewrite ask_eq, Hps, Hres, Ht.
  unfold outcome, events. cbn [fst snd].
  destruct t as [|c t]; [congruence|]. cbn [truthy].
  change (pystr (Some (String c t))) with (String c t).
  destruct (process_wolfram_string host (String c t)); [|reflexivity].
  now rewrite <- app_assoc.
Qed.

Lemma handle_fallback_answers_witness :
  let host :=
    example_host
      (fun _ _ => Ok (mkResponse [mkPod "Result" (Some "8848 meters") "200"] []))
      (fun _ => None) in
  handle_fallback host (mkMessage "how tall is mount everest" None) init =
    (Ok true,
     {| last_query := Some "how tall is mount everest";
        last_answer := Some "8848 meters" |},
     [LogDebug "WolframAlpha fallback attempt: how tall is mount everest";
      LogDebug "Querying WolframAlpha: how tall is mount everest";
      MouthThink;
      Query "how tall is mount everest"
        [("assumption", "DateOrder_**Day.Month.Year--"); ("units", "metric")];
      Speak "8848 meters"]).
Proof.
  cbv zeta.
  refine (handle_fallback_answers
            (example_host
               (fun _ _ => Ok (mkResponse [mkPod "Result" (Some "8848 meters") "200"] []))
               (fun _ => None))
            (mkMessage "how tall is mount everest" None) init
            (parsed "how" "tall" "is mount everest")
            [("assumption", "DateOrder_**Day.Month.Year--"); ("units", "metric")]
            (mkResponse [mkPod "Result" (Some "8848 meters") "200"] [])
            "8848 meters" _ _ _ _ _ _).
  - vm_compute. reflexivity.
  - intros Hd. apply (f_equal (fun m : dict => m !! "Query")) in Hd.
    vm_compute in Hd. discriminate.
  - reflexivity.
  - reflexivity.
  - reflexivity.
  - discriminate.
Defined.

(** X12.  With the setting forward_location at true and a configuration
    without location, or with a location without coordinate, a question is
    not answered: the lookup raises inside the [try] block, [TypeError]
    in the first case and [KeyError] in the second, the handler logs the
    exception and returns false, and the API is not called. *)
Theorem handle_fallback_without_coordinate host message self d :
  settings host !! "forward_location" = Some "true" ->
  parse (normalized host message) = Ok (Some d) ->
  d <> ∅ ->
  match location host with
  | Some (Some _) => True
  | Some None =>
      handle_fallback host message self =
        (Ok false, self,
         preamble message (build_query d) ++
         [LogException (KeyError "coordinate")])
  | None =>
      handle_fallback host message self =
        (Ok false, self,
         preamble message (build_query d) ++ [LogException TypeError])
  end.
Proof.
  intros Hfwd Hparse Hd.
  destruct (location host) as [[c|]|] eqn:Hloc; [exact I | |];
    rewrite handle_fallback_eq, Hparse;
    assert (Hq : truthy_dict (Some d) = true) by (apply truthy_dict_Some; eauto);
    rewrite Hq; cbv zeta; simpl default; rewrite ask_eq;
    unfold build_params; rewrite (bool_decide_eq_true_2 _ Hfwd);
    rewrite Hloc; unfold outcome, events; cbn; reflexivity.
Qed.

Lemma handle_fallback_without_coordinate_witness :
  let host location :=
    {| normalize := fun utt _ => utt;
       settings := {["forward_location" := "true"]};
       date_format := None;
       system_unit := None;
       location := location;
       client_query := fun _ _ => Ok (mkResponse [mkPod "Result" (Some "4") "200"] []);
       list_regex := fun _ => Ok None;
       render := fun template _ => template |} in
  handle_fallback (host None) (mkMessage "what is the moon" None) init =
    (Ok false, init,
     [LogDebug "WolframAlpha fallback attempt: what is the moon";
      LogDebug "Querying WolframAlpha: what is the moon";
      LogException TypeError]) /\
  handle_fallback (host (Some None)) (mkMessage "what is the moon" None) init =
    (Ok false, init,
     [LogDebug "WolframAlpha fallback attempt: what is the moon";
      LogDebug "Querying WolframAlpha: what is the moon";
      LogException (KeyError "coordinate")]).
Proof.
  cbv zeta. split.
  - refine (handle_fallback_without_coordinate
              {| normalize := fun utt _ => utt;
                 settings := {["forward_location" := "true"]};
                 date_format := None;
                 system_unit := None;
                 location := None;
                 client_query :=
                   fun _ _ => Ok (mkResponse [mkPod "Result" (Some "4") "200"] []);
                 list_regex := fun _ => Ok None;
                 render := fun template _ => template |}
              (mkMessage "what is the moon" None) init
              (parsed "what" "is" "the moon") _ _ _).
    + reflexivity.
    + vm_compute. reflexivity.
    + intros Hd. apply (f_equal (fun m : dict => m !! "Query")) in Hd.
      vm_compute in Hd. discriminate.
  - refine (handle_fallback_without_coordinate
              {| normalize := fun utt _ => utt;
                 settings := {["forward_location" := "true"]};
                 date_format := None;
                 system_unit := None;
                 location := Some None;
                 client_query :=
                   fun _ _ => Ok (mkResponse [mkPod "Result" (Some "4") "200"] []);
                 list_regex := fun _ => Ok None;
                 render := fun template _ => template |}
              (mkMessage "what is the moon" None) init
              (parsed "what" "is" "the moon") _ _ _).
    + reflexivity.
    + vm_compute. reflexivity.
    + intros Hd. apply (f_equal (fun m : dict => m !! "Query")) in Hd.
      vm_compute in Hd. discriminate.
Defined.

(** X13.  The handler reads nothing of what is recorded: started on two
    states, it has the same outcome and causes the same events, and it
    either leaves each state as it was or leaves the same state on both. *)
Theorem handle_fallback_reads_no_record host message self1 self2 :
  outcome (handle_fallback host message self1) =
  outcome (handle_fallback host message self2) /\
  events (handle_fallback host message self1) =
  events (handle_fallback host message self2) /\
  ((state_after (handle_fallback host message self1) = self1 /\
    state_after (handle_fallback host message self2) = self2) \/
   state_after (handle_fallback host message self1) =
   state_after (handle_fallback host message self2)).
Proof.
  rewrite !handle_fallback_eq.
  destruct (parse _) as [pq|e]; [|now repeat split; try left].
  destruct (truthy_dict pq); [|now repeat split; try left].
  cbv zeta. rewrite !ask_eq. unfold outcome, events, state_after.
  destruct (build_params host) as [ps|e]; cbn [fst snd].
  - destruct (client_query host _ ps) as [res|e].
    + destruct (truthy (get_result res));
        [destruct (process_wolfram_string host _)|]; cbn [fst snd];
        repeat split; try reflexivity;
        first [right; reflexivity | left; now split].
    + destruct e as [sc| | | |]; try destruct (sc =? 401)%Z; cbn [fst snd];
        repeat split; try reflexivity; left; now split.
  - destruct e as [sc| | | |]; try destruct (sc =? 401)%Z; cbn [fst snd];
      repeat split; try reflexivity; left; now split.
Qed.

(** X14.  A handling puts at most one query to the API and speaks at
    most once; and when it speaks, the speaking is its last event and
    comes directly after its query. *)
Theorem handle_fallback_one_query host message self :
  length (List.filter is_query (events (handle_fallback host message self))) <= 1 /\
  length (List.filter is_speak (events (handle_fallback host message self))) <= 1 /\
  (forall a,
      In (Speak a) (events (handle_fallback host message self)) ->
      exists before q ps,
        events (handle_fallback host message self) =
        before ++ [Query q ps; Speak a] /\
        List.filter is_query before = [] /\
        List.filter is_speak before = []).
Proof.
  split; [|split].
  - rewrite handle_fallback_eq.
    destruct (parse _) as [pq|e]; [|cbn; lia].
    destruct (truthy_dict pq); [|cbn; lia].
    cbv zeta. rewrite ask_eq. unfold outcome, events, preamble.
    destruct (build_params host) as [ps|e]; cbn [fst snd].
    + destruct (client_query host _ ps) as [res|e].
      * destruct (truthy (get_result res));
          [destruct (process_wolfram_string host _)|]; cbn; lia.
      * destruct e as [sc| | | |]; try destruct (sc =? 401)%Z; cbn; lia.
    + destruct e as [sc| | | |]; try destruct (sc =? 401)%Z; cbn; lia.
  - rewrite handle_fallback_eq.
    destruct (parse _) as [pq|e]; [|cbn; lia].
    destruct (truthy_dict pq); [|cbn; lia].
    cbv zeta. rewrite ask_eq. unfold outcome, events, preamble.
    destruct (build_params host) as [ps|e]; cbn [fst snd].
    + destruct (client_query host _ ps) as [res|e].
      * destruct (truthy (get_result res));
          [destruct (process_wolfram_string host _)|]; cbn; lia.
      * destruct e as [sc| | | |]; try destruct (sc =? 401)%Z; cbn; lia.
    + destruct e as [sc| | | |]; try destruct (sc =? 401)%Z; cbn; lia.
  - intros a Hin.
    destruct (handle_fallback_cases host message self)
      as [[_ Hno] | (d & ps & res & t & response & _ & _ & _ & _ & _ & _ & _ & Heq)].
    { now destruct (Hno a). }
    rewrite Heq in *. cbn [events snd] in *.
    assert (Ha : a = response).
    { apply in_app_or in Hin as [Hin | Hin]; simpl in Hin.
      - destruct Hin as [H | [H | []]]; discriminate.
      - destruct Hin as [H | [H | [H | []]]]; try discriminate.
        now injection H as <-. }
    subst a.
    exists (preamble message (build_query d) ++ [MouthThink]), (build_query d), ps.
    split; [now rewrite <- app_assoc | split; reflexivity].
Qed.

Lemma handle_fallback_one_query_witness :
  let host :=
    example_host
      (fun _ _ => Ok (mkResponse [mkPod "Result" (Some "8848 meters") "200"] []))
      (fun _ => None) in
  exists before q ps,
    events (handle_fallback host (mkMessage "how tall is mount everest" None) init) =
    before ++ [Query q ps; Speak "8848 meters"] /\
    List.filter is_query before = [] /\
    List.filter is_speak before = [].
Proof.
  cbv zeta.
  refine (proj2 (proj2 (handle_fallback_one_query _ _ _)) "8848 meters" _).
  vm_compute. right. right. right. right. left. reflexivity.
Defined.

Lemma handle_fallback_query_text host message self d query ps :
  parse (normalized host message) = Ok (Some d) ->
  In (Query query ps) (events (handle_fallback host message self)) ->
  query = build_query d.
Proof.
  intros Hparse. rewrite handle_fallback_eq, Hparse.
  destruct (truthy_dict (Some d)).
  2:{ intros [H|[H|[]]]; discriminate. }
  cbv zeta. simpl default. rewrite ask_eq. unfold outcome, events, preamble.
  destruct (build_params host) as [ps'|e].
  - destruct (client_query host _ ps') as [res|e]; cbn [fst snd].
    + destruct (truthy (get_result res));
        [destruct (process_wolfram_string host _)|]; intros H; simpl in H;
        repeat destruct H as [H|H]; try discriminate; try (now destruct H);
        now injection H as <- _.
    + destruct e as [sc| | | |]; try destruct (sc =? 401)%Z;
        intros H; simpl in H;
        repeat destruct H as [H|H]; try discriminate; try (now destruct H);
        now injection H as <- _.
  - cbn [fst snd]. destruct e as [sc| | | |]; try destruct (sc =? 401)%Z;
      intros H; simpl in H;
      repeat destruct H as [H|H]; try discriminate; now destruct H.
Qed.

(** X15.  For an utterance that the first pattern matches, the query put
    to the API is the question word, the copula, the subject and the
    predicate, in this order, with single spaces: the prefix is dropped
    and the copula moves before the subject. *)
Theorem handle_fallback_query_of_first_pattern
    host message self pre w q1 v q2 rest query ps :
  re_match regex1 (normalized host message) =
    Some (pre +:+ w +:+ " " +:+ q1 +:+ " " +:+ v +:+ " " +:+ q2, rest,
          [("QuestionWord", w); ("Query1", q1);
           ("QuestionVerb", v); ("Query2", q2)]) ->
  In (Query query ps) (events (handle_fallback host message self)) ->
  query = w +:+ " " +:+ v +:+ " " +:+ q1 +:+ " " +:+ q2.
Proof.
  intros Hmatch Hin.
  assert (Hparse : parse (normalized host message) =
                   Ok (Some (parsed w v (q1 +:+ " " +:+ q2)))).
  { unfold parse, regexes, parse_with. rewrite Hmatch. apply _normalize_groups1. }
  rewrite (handle_fallback_query_text _ _ _ _ _ _ Hparse Hin). reflexivity.
Qed.

Lemma handle_fallback_query_of_first_pattern_witness :
  "when was america founded" =
  "when" +:+ " " +:+ "was" +:+ " " +:+ "america" +:+ " " +:+ "founded".
Proof.
  apply (handle_fallback_query_of_first_pattern
           (example_host (fun _ _ => Ok (mkResponse [] [])) (fun _ => None))
           (mkMessage "tell me when america was founded" None) init
           "tell me " "when" "america" "was" "founded" ""
           "when was america founded"
           [("assumption", "DateOrder_**Day.Month.Year--"); ("units", "metric")]).
  - vm_compute. reflexivity.
  - vm_compute. right. right. right. left. reflexivity.
Defined.

Lemma replace_plus s :
  Str.replace "+" " " s =
  (fix go (s : string) : string :=
     match s with
     | "" => ""
     | String c s' => String (if Ascii.eqb c "+" then " "%char else c) (go s')
     end) s.
Proof.
  unfold Str.replace. induction s as [|c s IH]; [reflexivity|].
  cbn [Str.replace_from String.length]. rewrite prefix_char.
  destruct (Ascii.eqb c "+"); now rewrite IH.
Qed.

(** X16.  The url_query of the email has the length of the query and no
    space; and when the query has no plus sign, turning the plus signs of
    the url_query back into spaces gives the query again. *)
Theorem url_query_round_trip q :
  String.length (Str.replace " " "+" q) = String.length q /\
  Str.all (fun c => negb (Ascii.eqb c " ")) (Str.replace " " "+" q) = true /\
  (Str.all (fun c => negb (Ascii.eqb c "+")) q = true ->
   Str.replace "+" " " (Str.replace " " "+" q) = q).
Proof.
  rewrite replace_plus, replace_spaces. split; [|split].
  - induction q as [|c q IH]; simpl; [reflexivity | now rewrite IH].
  - induction q as [|c q IH]; [reflexivity|]. cbn [spaces_to_plus Str.all].
    rewrite IH, andb_true_r. destruct (Ascii.eqb c " ") eqn:Hc; [reflexivity|].
    now rewrite Hc.
  - induction q as [|c q IH]; [reflexivity|]. cbn [spaces_to_plus Str.all].
    intros H. apply andb_true_iff in H as [Hc Hq]. rewrite (IH Hq).
    apply negb_true_iff in Hc.
    destruct (Ascii.eqb c " ") eqn:Hsp.
    + apply Ascii.eqb_eq in Hsp as ->. reflexivity.
    + now rewrite Hc.
Qed.

Lemma url_query_round_trip_witness :
  Str.replace "+" " " (Str.replace " " "+" "when was america founded") =
  "when was america founded".
Proof.
  refine (proj2 (proj2 (url_query_round_trip "when was america founded")) _).
  reflexivity.
Defined.

(** X17.  After a handling that spoke an answer, a source request, with
    whatever host, sends one email rendered from the query that handling
    put to the API, the answer it spoke and the query with its spaces
    turned into plus signs, speaks the confirmation and keeps the record. *)
Theorem handle_get_sources_after_answer host host' message self a :
  In (Speak a) (events (handle_fallback host message self)) ->
  exists q ps,
    In (Query q ps) (events (handle_fallback host message self)) /\
    let data : dict :=
      <["query" := Some q]>
      (<["answer" := Some a]>
      (<["url_query" := Some (spaces_to_plus q)]> ∅)) in
    handle_get_sources host' (state_after (handle_fallback host message self)) =
      (Ok tt, state_after (handle_fallback host message self),
       [SendEmail (render host' "email.subject" data)
                  (render host' "email.body" data);
        SpeakDialog "sent.email"]).
Proof.
  intros Hin.
  destruct (handle_fallback_cases host message self)
    as [[_ Hno] | (d & ps & res & t & response & _ & _ & _ & _ & _ & _ & _ & Heq)].
  { now destruct (Hno a). }
  rewrite Heq in *. cbn [events state_after fst snd] in *.
  assert (Ha : a = response).
  { apply in_app_or in Hin as [Hin | Hin]; simpl in Hin.
    - destruct Hin as [H | [H | []]]; discriminate.
    - destruct Hin as [H | [H | [H | []]]]; try discriminate.
      now injection H as <-. }
  subst a. exists (build_query d), ps. split.
  - apply in_or_app. right. right. now left.
  - cbv zeta. rewrite handle_get_sources_eq. cbn [last_query].
    rewrite build_query_true. unfold source_data. cbn [last_query last_answer pystr default].
    now rewrite replace_spaces.
Qed.

Lemma handle_get_sources_after_answer_witness :
  let host :=
    example_host
      (fun _ _ => Ok (mkResponse [mkPod "Result" (Some "8848 meters") "200"] []))
      (fun _ => None) in
  exists q ps,
    In (Query q ps)
       (events (handle_fallback host (mkMessage "how tall is mount everest" None) init)) /\
    let data : dict :=
      <["query" := Some q]>
      (<["answer" := Some "8848 meters"]>
      (<["url_query" := Some (spaces_to_plus q)]> ∅)) in
    handle_get_sources host
      (state_after (handle_fallback host (mkMessage "how tall is mount everest" None) init)) =
      (Ok tt,
       state_after (handle_fallback host (mkMessage "how tall is mount everest" None) init),
       [SendEmail (render host "email.subject" data)
                  (render host "email.body" data);
        SpeakDialog "sent.email"]).
Proof.
  cbv zeta.
  apply (handle_get_sources_after_answer
           (example_host
              (fun _ _ => Ok (mkResponse [mkPod "Result" (Some "8848 meters") "200"] []))
              (fun _ => None))).
  vm_compute. right. right. right. right. left. reflexivity.
Defined.

End HandlerMore.
